(** * TaskNap: the scheduling core of [TaskNap.py]

    A shallow embedding of the [SchedulerApp] window of [TaskNap.py]: the
    dictionary of scheduled events, the id counter, the one-shot [QTimer] of
    every event, the [PreActionDialog] countdown, the inactivity poll and the
    optional log file, followed by the properties of the scheduling protocol.

    Conventions of the embedding.
    - A Python method that mutates [self] and may raise is a computation in
      the monad [M]: it maps the application state to an outcome (a returned
      value or a raised exception) and the state reached at that point.
    - Objects that are shared by reference ([QTimer]s stored inside the event
      tuples, [PreActionDialog]s) live in stores ([timers], [dialogs]) and are
      named by their index.
    - [dialog.exec_()] blocks [prepare_for_action] in a nested Qt event loop.
      The suspended call is a frame of [exec_stack]; the statements after
      [exec_()] are [prepare_for_action_resume], run when the dialog of the
      innermost frame has closed.
    - Wall-clock instants are integers (milliseconds, the resolution of
      [QDateTime]). The argument of [QTimer.start] is computed as Python
      computes it, in IEEE binary64 ([total_seconds()], the product by 1000
      and [int()]), and [start] raises [OverflowError] outside the range of
      a C [int]. Where a duration is only compared with an integer bound the
      comparison is made on exact rationals: rounding to the nearest float
      keeps the sign of a quotient of integers, and an idle time in whole
      milliseconds is never within rounding distance of a whole number of
      seconds.
    - A click on the button of the [PreActionDialog] and a call of its
      [reject()] are different events: [QMessageBox] closes itself through
      [done()] when one of its buttons is clicked and does not go through
      [reject()], which Qt calls on a close request to the dialog window.
    - An exception that leaves a handler is recorded in the outcome and the
      state reached is kept. PyQt5 from version 5.5 on aborts the process at
      that point (unless [sys.excepthook] is replaced), earlier versions
      print the traceback and return to the event loop: the runs of the
      model include those of either behaviour.
    - Formatted strings are kept as structured [text] values that record the
      fields interpolated from the state; readings of [datetime.now()] inside
      messages are not recorded. *)

From stdpp Require Import base option list strings.
From Stdlib Require Import ZArith QArith Lia SpecFloat.

Close Scope Q_scope.
Local Open Scope Z_scope.

(** ** Data *)

(** The three strings ['shutdown'], ['restart'] and ['sleep'] passed as
    [action_type]. *)
Inductive ActionType := shutdown | restart | sleep.

Definition action_name (a : ActionType) : string :=
  match a with
  | shutdown => "shutdown"
  | restart => "restart"
  | sleep => "sleep"
  end.

#[global] Instance ActionType_eq_dec : EqDecision ActionType.
Proof. solve_decision. Defined.

(** The keys of [config.ini] read through [self.settings.value]. *)
Record Settings := {
  notifications_enable : bool;
  notifications_seconds_before : Z;
  logging_enable : bool;
  startup_enable : bool;
  ui_minimize_to_tray : bool;
  auto_sleep_enable : bool;
  auto_sleep_timeout_minutes : Z
}.

(** The defaults given at every [settings.value(key, default, type)]. *)
Definition default_settings : Settings := {|
  notifications_enable := false;
  notifications_seconds_before := 30;
  logging_enable := false;
  startup_enable := false;
  ui_minimize_to_tray := false;
  auto_sleep_enable := false;
  auto_sleep_timeout_minutes := 30
|}.

(** Texts shown to the user or written to the log. [Lit] is a literal of the
    source, the other constructors are its f-strings. *)
Inductive text :=
| Lit (s : string)
| Fmt_scheduled_log (a : ActionType) (scheduled_datetime : Z)
| Fmt_scheduled (a : ActionType) (scheduled_datetime : Z) (count : nat)
| Fmt_about_to_happen (a : ActionType) (notify_seconds : Z)
| Fmt_dialog (a : ActionType) (seconds : Z)
| Fmt_executed_log (a : ActionType)
| Fmt_executed_remain (a : ActionType) (remaining : nat)
| Fmt_executed_no_more (a : ActionType)
| Fmt_executed_title (a : ActionType)
| Fmt_canceled (a : ActionType) (scheduled_datetime : Z) (by_user : bool).

Inductive MessageIcon := Information | Warning.

(** What the application does to the outside world. *)
Inductive effect :=
| OsSystem (command : string)
| ShowMessage (title body : text) (icon : MessageIcon) (msecs : Z).

(** A single-shot [QTimer] created by [schedule_action]; [tm_slot] is the
    [timer_id] captured by the lambda connected to [timeout]. *)
Record QTimer := {
  tm_interval : Z;
  tm_active : bool;
  tm_slot : Z
}.

(** A [PreActionDialog]. [dlg_visible] holds while [exec_()] shows it. *)
Record PreActionDialog := {
  dlg_action_type : ActionType;
  dlg_timeout : Z;
  dlg_text : text;
  close_timer_active : bool;
  remaining_time : Z;
  user_canceled : bool;
  dlg_visible : bool
}.

(** The value stored under a [timer_id]:
    [(timer, action_type, scheduled_datetime)]. *)
Definition ScheduledEvent : Type := nat * ActionType * Z.

(** ** Python dictionaries with integer keys

    Insertion-ordered, as [dict] is; a well-formed dictionary has no
    duplicate key. *)
Definition dict (V : Type) : Type := list (Z * V).

Section Dict.
Context {V : Type}.

Definition dict_keys (d : dict V) : list Z := d.*1.

Fixpoint dict_get (k : Z) (d : dict V) : option V :=
  match d with
  | [] => None
  | (k', v) :: d' => if Z.eqb k k' then Some v else dict_get k d'
  end.

Definition dict_in (k : Z) (d : dict V) : bool :=
  match dict_get k d with Some _ => true | None => false end.

(** [d[k] = v]: replaces in place, or appends a new key. *)
Fixpoint dict_set (k : Z) (v : V) (d : dict V) : dict V :=
  match d with
  | [] => [(k, v)]
  | (k', v') :: d' =>
      if Z.eqb k k' then (k, v) :: d' else (k', v') :: dict_set k v d'
  end.

(** [del d[k]] on a key that is present. *)
Fixpoint dict_del (k : Z) (d : dict V) : dict V :=
  match d with
  | [] => []
  | (k', v') :: d' =>
      if Z.eqb k k' then d' else (k', v') :: dict_del k d'
  end.
End Dict.

(** ** The application state *)

Record SchedulerApp := {
  settings : Settings;
  scheduled_events : dict ScheduledEvent;
  last_timer_id : Z;
  info_label : text;
  (** every [QTimer] made by [schedule_action], by creation order *)
  timers : list QTimer;
  (** every [PreActionDialog] made by [prepare_for_action] *)
  dialogs : list PreActionDialog;
  (** calls of [prepare_for_action] blocked in [dialog.exec_()], innermost
      first: the [timer_id] of the call and its dialog *)
  exec_stack : list (Z * nat);
  (** lines of [scheduler_log.txt]; [None] when [open(log_path, "a")]
      fails *)
  log_file : option (list text);
  (** ['windows' in platform.system().lower()] *)
  on_windows : bool;
  (** the effects so far, oldest first *)
  trace : list effect
}.

Definition with_scheduled_events (d : dict ScheduledEvent) (s : SchedulerApp) :=
  {| settings := settings s; scheduled_events := d;
     last_timer_id := last_timer_id s; info_label := info_label s;
     timers := timers s; dialogs := dialogs s; exec_stack := exec_stack s;
     log_file := log_file s; on_windows := on_windows s; trace := trace s |}.

Definition with_last_timer_id (n : Z) (s : SchedulerApp) :=
  {| settings := settings s; scheduled_events := scheduled_events s;
     last_timer_id := n; info_label := info_label s;
     timers := timers s; dialogs := dialogs s; exec_stack := exec_stack s;
     log_file := log_file s; on_windows := on_windows s; trace := trace s |}.

Definition with_info_label (t : text) (s : SchedulerApp) :=
  {| settings := settings s; scheduled_events := scheduled_events s;
     last_timer_id := last_timer_id s; info_label := t;
     timers := timers s; dialogs := dialogs s; exec_stack := exec_stack s;
     log_file := log_file s; on_windows := on_windows s; trace := trace s |}.

Definition with_timers (l : list QTimer) (s : SchedulerApp) :=
  {| settings := settings s; scheduled_events := scheduled_events s;
     last_timer_id := last_timer_id s; info_label := info_label s;
     timers := l; dialogs := dialogs s; exec_stack := exec_stack s;
     log_file := log_file s; on_windows := on_windows s; trace := trace s |}.

Definition with_dialogs (l : list PreActionDialog) (s : SchedulerApp) :=
  {| settings := settings s; scheduled_events := scheduled_events s;
     last_timer_id := last_timer_id s; info_label := info_label s;
     timers := timers s; dialogs := l; exec_stack := exec_stack s;
     log_file := log_file s; on_windows := on_windows s; trace := trace s |}.

Definition with_exec_stack (l : list (Z * nat)) (s : SchedulerApp) :=
  {| settings := settings s; scheduled_events := scheduled_events s;
     last_timer_id := last_timer_id s; info_label := info_label s;
     timers := timers s; dialogs := dialogs s; exec_stack := l;
     log_file := log_file s; on_windows := on_windows s; trace := trace s |}.

Definition with_log_file (f : option (list text)) (s : SchedulerApp) :=
  {| settings := settings s; scheduled_events := scheduled_events s;
     last_timer_id := last_timer_id s; info_label := info_label s;
     timers := timers s; dialogs := dialogs s; exec_stack := exec_stack s;
     log_file := f; on_windows := on_windows s; trace := trace s |}.

Definition with_settings (c : Settings) (s : SchedulerApp) :=
  {| settings := c; scheduled_events := scheduled_events s;
     last_timer_id := last_timer_id s; info_label := info_label s;
     timers := timers s; dialogs := dialogs s; exec_stack := exec_stack s;
     log_file := log_file s; on_windows := on_windows s; trace := trace s |}.

Definition with_trace (l : list effect) (s : SchedulerApp) :=
  {| settings := settings s; scheduled_events := scheduled_events s;
     last_timer_id := last_timer_id s; info_label := info_label s;
     timers := timers s; dialogs := dialogs s; exec_stack := exec_stack s;
     log_file := log_file s; on_windows := on_windows s; trace := l |}.

(** ** Computations: state and exceptions *)

Inductive exn := OSError | OverflowError.

Inductive outcome (A : Type) :=
| Return (a : A)
| Raise (e : exn).
Arguments Return {A} a.
Arguments Raise {A} e.

Definition M (A : Type) : Type := SchedulerApp -> outcome A * SchedulerApp.

Definition ret {A} (a : A) : M A := fun s => (Return a, s).

Definition bind {A B} (m : M A) (k : A -> M B) : M B := fun s =>
  match m s with
  | (Return a, s') => k a s'
  | (Raise e, s') => (Raise e, s')
  end.

Definition raise {A} (e : exn) : M A := fun s => (Raise e, s).
Definition gets {A} (f : SchedulerApp -> A) : M A := fun s => (Return (f s), s).
Definition modify (f : SchedulerApp -> SchedulerApp) : M unit :=
  fun s => (Return tt, f s).

Declare Scope py_scope.
Delimit Scope py_scope with py.
Notation "'do' x <- m ; k" := (bind m (fun x => k))
  (at level 60, x name, m at next level, right associativity) : py_scope.
Local Open Scope py_scope.

(** The state a computation leaves, whatever its outcome: an exception does
    not roll back what the method had already done. *)
Definition exec {A} (m : M A) (s : SchedulerApp) : SchedulerApp := snd (m s).
Definition result_of {A} (m : M A) (s : SchedulerApp) : outcome A := fst (m s).


Definition emit (e : effect) : M unit :=
  modify (fun s => with_trace (trace s ++ [e]) s).

(** ** [QTimer] and [PreActionDialog] objects *)

(** [QTimer.start(msec)] takes a C [int]: PyQt raises [OverflowError] for
    a Python integer outside its range. *)
Definition c_int (z : Z) : bool := (-2147483648 <=? z) && (z <=? 2147483647).

(** [QTimer(self)], [setSingleShot(True)], [timeout.connect(lambda:
    self.prepare_for_action(timer_id))] and [start(interval)]. When [start]
    raises, the timer object exists, connected and not started. *)
Definition new_timer (timer_id interval : Z) : M nat := fun s =>
  if c_int interval then
    (Return (length (timers s)),
     with_timers (timers s ++ [{| tm_interval := interval;
                                  tm_active := true;
                                  tm_slot := timer_id |}]) s)
  else
    (Raise OverflowError,
     with_timers (timers s ++ [{| tm_interval := 0;
                                  tm_active := false;
                                  tm_slot := timer_id |}]) s).

Definition timer_isActive (timer : nat) : M bool :=
  gets (fun s => match timers s !! timer with
                 | Some t => tm_active t
                 | None => false
                 end).

Definition stopped (t : QTimer) : QTimer :=
  {| tm_interval := tm_interval t; tm_active := false; tm_slot := tm_slot t |}.

Definition timer_stop (timer : nat) : M unit :=
  modify (fun s => with_timers (alter stopped timer (timers s)) s).

(** [PreActionDialog.__init__]: the one-second [close_timer] is started and
    [remaining_time] is the timeout. *)
Definition new_PreActionDialog (action_type : ActionType) (timeout : Z)
  : M nat := fun s =>
  (Return (length (dialogs s)),
   with_dialogs (dialogs s ++ [{| dlg_action_type := action_type;
                                  dlg_timeout := timeout;
                                  dlg_text := Fmt_dialog action_type timeout;
                                  close_timer_active := true;
                                  remaining_time := timeout;
                                  user_canceled := false;
                                  dlg_visible := false |}]) s).

Definition shown (d : PreActionDialog) : PreActionDialog :=
  {| dlg_action_type := dlg_action_type d; dlg_timeout := dlg_timeout d;
     dlg_text := dlg_text d; close_timer_active := close_timer_active d;
     remaining_time := remaining_time d; user_canceled := user_canceled d;
     dlg_visible := true |}.

(** [PreActionDialog.on_timeout]: one tick of [close_timer]. At zero the
    timer is stopped and the dialog accepted, which closes it. *)
Definition on_timeout (d : PreActionDialog) : PreActionDialog :=
  let remaining := remaining_time d - 1 in
  if remaining <=? 0 then
    {| dlg_action_type := dlg_action_type d; dlg_timeout := dlg_timeout d;
       dlg_text := dlg_text d; close_timer_active := false;
       remaining_time := remaining; user_canceled := user_canceled d;
       dlg_visible := false |}
  else
    {| dlg_action_type := dlg_action_type d; dlg_timeout := dlg_timeout d;
       dlg_text := Fmt_dialog (dlg_action_type d) remaining;
       close_timer_active := close_timer_active d;
       remaining_time := remaining; user_canceled := user_canceled d;
       dlg_visible := dlg_visible d |}.

(** [PreActionDialog.reject]: [user_canceled] is set and [super().reject()]
    closes the dialog; [close_timer] is left as it is. *)
Definition reject (d : PreActionDialog) : PreActionDialog :=
  {| dlg_action_type := dlg_action_type d; dlg_timeout := dlg_timeout d;
     dlg_text := dlg_text d; close_timer_active := close_timer_active d;
     remaining_time := remaining_time d; user_canceled := true;
     dlg_visible := false |}.

(** [QDialog.done], which [PreActionDialog] does not override: the dialog
    closes and nothing else changes. This is what a click on a button of a
    [QMessageBox] runs. *)
Definition dialog_done (d : PreActionDialog) : PreActionDialog :=
  {| dlg_action_type := dlg_action_type d; dlg_timeout := dlg_timeout d;
     dlg_text := dlg_text d; close_timer_active := close_timer_active d;
     remaining_time := remaining_time d; user_canceled := user_canceled d;
     dlg_visible := false |}.

(** [dialog.exec_()]: show the dialog and suspend the caller. *)
Definition dialog_exec (timer_id : Z) (dialog : nat) : M unit :=
  modify (fun s =>
    with_exec_stack ((timer_id, dialog) :: exec_stack s)
      (with_dialogs (alter shown dialog (dialogs s)) s)).

(** ** The methods of [SchedulerApp] *)

(** The idle probe: [Some elapsed_ms] when [GetLastInputInfo] answers on
    Windows, [None] elsewhere or when the call fails. *)
Definition get_system_idle_time_seconds (probe : option Z) : Q :=
  match probe with
  | Some elapsed_ms => Qmake elapsed_ms 1000
  | None => inject_Z 0
  end.

Definition system_command (windows : bool) (action_type : ActionType)
  : string :=
  match action_type with
  | shutdown => if windows then "shutdown /s /f /t 0" else "shutdown -h now"
  | restart => if windows then "shutdown /r /f /t 0" else "shutdown -r now"
  | sleep =>
      if windows then "rundll32.exe powrprof.dll,SetSuspendState 0,1,0"
      else "systemctl suspend"
  end.

Definition perform_system_action (action_type : ActionType) : M unit :=
  do windows <- gets on_windows ;
  emit (OsSystem (system_command windows action_type)).

(** [log_event]: [open] raises [OSError] when the file cannot be opened;
    there is no handler around it. *)
Definition log_event (message : text) : M unit :=
  do enable_logging <- gets (fun s => logging_enable (settings s)) ;
  if negb enable_logging then ret tt
  else
    do f <- gets log_file ;
    match f with
    | None => raise OSError
    | Some lines => modify (with_log_file (Some (lines ++ [message])))
    end.

Definition check_inactivity (probe : option Z) : M unit :=
  do auto_sleep_enabled <- gets (fun s => auto_sleep_enable (settings s)) ;
  if negb auto_sleep_enabled then ret tt
  else
    do timeout_minutes <-
      gets (fun s => auto_sleep_timeout_minutes (settings s)) ;
    let inactivity_threshold := inject_Z (timeout_minutes * 60) in
    let idle_seconds := get_system_idle_time_seconds probe in
    if Qle_bool inactivity_threshold idle_seconds then
      perform_system_action sleep
    else ret tt.

(** *** Python floats

    IEEE binary64 with rounding to nearest even, as [SpecFloat] defines
    it. *)
Definition prec : Z := 53.
Definition emax : Z := 1024.

(** [n / d] on Python integers: the correctly rounded quotient. *)
Definition int_truediv (n : Z) (d : positive) : spec_float :=
  match n with
  | Z0 => S754_zero false
  | Zpos p => SFdiv prec emax (S754_finite false p 0) (S754_finite false d 0)
  | Zneg p => SFdiv prec emax (S754_finite true p 0) (S754_finite false d 0)
  end.

(** [timedelta.total_seconds()] of a difference of [delta] milliseconds:
    its microseconds divided by [10**6]. *)
Definition total_seconds (delta : Z) : spec_float :=
  int_truediv (delta * 1000) 1000000.

(** [int(x)] on a finite float: truncation towards zero. *)
Definition int_of_float (x : spec_float) : Z :=
  match x with
  | S754_finite sign m e =>
      let v := if 0 <=? e then Z.shiftl (Zpos m) e
               else Z.shiftr (Zpos m) (- e) in
      if sign then - v else v
  | _ => 0
  end.

(** [int(delay_seconds * 1000)], the argument of [timer.start]. *)
Definition interval_msec (scheduled_datetime current_time : Z) : Z :=
  int_of_float
    (SFmul prec emax (total_seconds (scheduled_datetime - current_time))
       (S754_finite false 1000 0)).

(** [schedule_action]; [scheduled_datetime] is what the date-time picker
    holds and [current_time] what [QDateTime.currentDateTime()] returns. *)
Definition schedule_action (action_type : ActionType)
    (scheduled_datetime current_time : Z) : M unit :=
  let delay_seconds := Qmake (scheduled_datetime - current_time) 1000 in
  if Qle_bool delay_seconds (inject_Z 0) then
    modify (with_info_label
      (Lit "The selected time is in the past. Please choose a future time."))
  else
    do _ <- modify (fun s => with_last_timer_id (last_timer_id s + 1) s) ;
    do timer_id <- gets last_timer_id ;
    do timer <-
      new_timer timer_id (interval_msec scheduled_datetime current_time) ;
    do _ <- modify (fun s =>
      with_scheduled_events
        (dict_set timer_id (timer, action_type, scheduled_datetime)
           (scheduled_events s)) s) ;
    do _ <- log_event (Fmt_scheduled_log action_type scheduled_datetime) ;
    do count <- gets (fun s => length (scheduled_events s)) ;
    let msg := Fmt_scheduled action_type scheduled_datetime count in
    do _ <- modify (with_info_label msg) ;
    emit (ShowMessage (Lit "Action Scheduled") msg Information 3000).

Arguments interval_msec : simpl never.
Arguments c_int : simpl never.

Definition execute_action (timer_id : Z) : M unit :=
  do events <- gets scheduled_events ;
  match dict_get timer_id events with
  | None => ret tt
  | Some (timer, action_type, scheduled_datetime) =>
      do _ <- modify (fun s =>
        with_scheduled_events (dict_del timer_id (scheduled_events s)) s) ;
      do _ <- perform_system_action action_type ;
      do _ <- log_event (Fmt_executed_log action_type) ;
      do remaining <- gets (fun s => length (scheduled_events s)) ;
      let msg := if (0 <? remaining)%nat
                 then Fmt_executed_remain action_type remaining
                 else Fmt_executed_no_more action_type in
      do _ <- modify (with_info_label msg) ;
      emit (ShowMessage (Fmt_executed_title action_type) msg Information 3000)
  end.

Definition cancel_event (timer_id : Z) (user_triggered : bool) : M unit :=
  do events <- gets scheduled_events ;
  match dict_get timer_id events with
  | None => ret tt
  | Some (timer, action_type, scheduled_datetime) =>
      do active <- timer_isActive timer ;
      do _ <- (if active then timer_stop timer else ret tt) ;
      do _ <- modify (fun s =>
        with_scheduled_events (dict_del timer_id (scheduled_events s)) s) ;
      let msg := Fmt_canceled action_type scheduled_datetime user_triggered in
      do _ <- modify (with_info_label msg) ;
      do _ <- log_event msg ;
      emit (ShowMessage (Lit "Action Canceled") msg Information 3000)
  end.

(** The body of the [for] loop of [cancel_all_scheduled_events], over the
    snapshot [list(self.scheduled_events.items())]. *)
Fixpoint cancel_all_loop (items : list (Z * ScheduledEvent)) : M unit :=
  match items with
  | [] => ret tt
  | (timer_id, (timer, action_type, scheduled_datetime)) :: rest =>
      do active <- timer_isActive timer ;
      do _ <- (if active then timer_stop timer else ret tt) ;
      do _ <- modify (fun s =>
        with_scheduled_events (dict_del timer_id (scheduled_events s)) s) ;
      do _ <- log_event (Fmt_canceled action_type scheduled_datetime false) ;
      cancel_all_loop rest
  end.

Definition cancel_all_scheduled_events : M unit :=
  do events <- gets scheduled_events ;
  match events with
  | [] => modify (with_info_label (Lit "No events to cancel."))
  | _ :: _ =>
      do _ <- cancel_all_loop events ;
      do _ <- modify (with_info_label
        (Lit "All scheduled events have been canceled.")) ;
      emit (ShowMessage (Lit "All Canceled")
              (Lit "All scheduled events have been canceled.")
              Information 3000)
  end.

(** [prepare_for_action] up to and including the call of [dialog.exec_()]. *)
Definition prepare_for_action (timer_id : Z) : M unit :=
  do events <- gets scheduled_events ;
  match dict_get timer_id events with
  | None => ret tt
  | Some (_, action_type, scheduled_datetime) =>
      do notify_enabled <- gets (fun s => notifications_enable (settings s)) ;
      if negb notify_enabled then execute_action timer_id
      else
        do notify_seconds <-
          gets (fun s => notifications_seconds_before (settings s)) ;
        do _ <- emit (ShowMessage (Lit "Action About to Happen")
                        (Fmt_about_to_happen action_type notify_seconds)
                        Warning 5000) ;
        do dialog <- new_PreActionDialog action_type notify_seconds ;
        dialog_exec timer_id dialog
  end.

(** [prepare_for_action] from the return of [dialog.exec_()]. *)
Definition prepare_for_action_resume (timer_id : Z) (dialog : nat) : M unit :=
  do ds <- gets dialogs ;
  match ds !! dialog with
  | None => ret tt
  | Some d =>
      if user_canceled d then cancel_event timer_id true
      else execute_action timer_id
  end.

(** ** The event loop *)

(** What Qt can deliver to the application. [Click_cancel_this_action] is
    a click on the button of a pre-notification dialog, [Close_requested] a
    close request to its window, on which [QDialog.closeEvent] calls the
    dialog's [reject()]. *)
Inductive qt_event :=
| Click_schedule (action_type : ActionType)
    (scheduled_datetime current_time : Z)
| Click_cancel_all
| Timer_timeout (timer : nat)
| Close_timer_timeout (dialog : nat)
| Click_cancel_this_action (dialog : nat)
| Close_requested (dialog : nat)
| Exec_returns
| Inactivity_timeout (probe : option Z)
| Settings_saved (cfg : Settings)
| Log_file_status (f : option (list text)).

Definition handler (e : qt_event) : M unit :=
  match e with
  | Click_schedule action_type scheduled_datetime current_time =>
      schedule_action action_type scheduled_datetime current_time
  | Click_cancel_all => cancel_all_scheduled_events
  | Timer_timeout timer =>
      (* a single-shot timer stops itself before its slot runs *)
      do ts <- gets timers ;
      match ts !! timer with
      | Some t =>
          if tm_active t then
            do _ <- timer_stop timer ;
            prepare_for_action (tm_slot t)
          else ret tt
      | None => ret tt
      end
  | Close_timer_timeout dialog =>
      do ds <- gets dialogs ;
      match ds !! dialog with
      | Some d =>
          if close_timer_active d then
            modify (fun s => with_dialogs (alter on_timeout dialog (dialogs s)) s)
          else ret tt
      | None => ret tt
      end
  | Click_cancel_this_action dialog =>
      (* the button was added with [addButton]; no slot of the source is
         connected to it and [QMessageBox] answers the click with [done()] *)
      do ds <- gets dialogs ;
      match ds !! dialog with
      | Some d =>
          if dlg_visible d then
            modify (fun s =>
              with_dialogs (alter dialog_done dialog (dialogs s)) s)
          else ret tt
      | None => ret tt
      end
  | Close_requested dialog =>
      do ds <- gets dialogs ;
      match ds !! dialog with
      | Some d =>
          if dlg_visible d then
            modify (fun s => with_dialogs (alter reject dialog (dialogs s)) s)
          else ret tt
      | None => ret tt
      end
  | Exec_returns =>
      (* the innermost [exec_()] returns once its dialog has closed *)
      do stack <- gets exec_stack ;
      match stack with
      | (timer_id, dialog) :: rest =>
          do ds <- gets dialogs ;
          match ds !! dialog with
          | Some d =>
              if dlg_visible d then ret tt
              else
                do _ <- modify (with_exec_stack rest) ;
                prepare_for_action_resume timer_id dialog
          | None => ret tt
          end
      | [] => ret tt
      end
  | Inactivity_timeout probe => check_inactivity probe
  | Settings_saved cfg => modify (with_settings cfg)
  | Log_file_status f => modify (with_log_file f)
  end.

(** One event handled. The state is kept whatever the outcome: what a
    handler had done when it raised stays done. [run] and [reachable] go on
    after such a step, which covers the event loop that survives the
    exception as well as the process that is aborted at it. *)
Definition dispatch (e : qt_event) (s : SchedulerApp) : SchedulerApp :=
  exec (handler e) s.

Definition run (es : list qt_event) (s : SchedulerApp) : SchedulerApp :=
  fold_left (fun s e => dispatch e s) es s.

(** [SchedulerApp.__init__]. *)
Definition init (cfg : Settings) (log : option (list text)) (windows : bool)
  : SchedulerApp :=
  {| settings := cfg; scheduled_events := []; last_timer_id := 0;
     info_label := Lit "No scheduled events.";
     timers := []; dialogs := []; exec_stack := [];
     log_file := log; on_windows := windows; trace := [] |}.

Inductive reachable : SchedulerApp -> Prop :=
| reachable_init cfg log windows : reachable (init cfg log windows)
| reachable_step s e : reachable s -> reachable (dispatch e s).

(** ** Observations *)

(** The commands handed to [os.system], oldest first. *)
Fixpoint performs (tr : list effect) : list string :=
  match tr with
  | [] => []
  | OsSystem c :: tr' => c :: performs tr'
  | ShowMessage _ _ _ _ :: tr' => performs tr'
  end.

Inductive EventState := Armed | PreNotifying | Executed | Canceled.

(** The state of the event registered under [timer_id], read off the
    application: armed while its timer runs and no pre-notification waits
    for it, pre-notifying once its timer has fired and a call of
    [prepare_for_action] for it waits in [exec_()]. The source keeps no
    state field and no executed or canceled event, so an id without an
    entry has no state here. *)
Definition event_state (s : SchedulerApp) (timer_id : Z) : option EventState :=
  match dict_get timer_id (scheduled_events s) with
  | None => None
  | Some (timer, _, _) =>
      match timers s !! timer with
      | Some t =>
          if tm_active t then
            if bool_decide (timer_id ∈ (exec_stack s).*1) then None
            else Some Armed
          else
            if bool_decide (timer_id ∈ (exec_stack s).*1)
            then Some PreNotifying else None
      | None => None
      end
  end.

(** ** The invariant of the scheduler

    Stated over the four components it constrains, so that every change of
    a label, of the trace, of the log or of the settings keeps it. *)
Definition Inv_core (events : dict ScheduledEvent) (last : Z)
    (ts : list QTimer) (stack : list (Z * nat)) : Prop :=
  NoDup (dict_keys events)
  /\ (forall id timer a dt,
        dict_get id events = Some (timer, a, dt) ->
        id <= last
        /\ exists t, ts !! timer = Some t /\ tm_slot t = id
                     /\ (tm_active t = false -> id ∈ stack.*1))
  /\ (forall timer t, ts !! timer = Some t -> tm_slot t <= last)
  /\ NoDup (tm_slot <$> ts)
  /\ (forall id, id ∈ stack.*1 ->
        id <= last
        /\ forall timer t, ts !! timer = Some t -> tm_slot t = id ->
                           tm_active t = false).

Definition Inv (s : SchedulerApp) : Prop :=
  Inv_core (scheduled_events s) (last_timer_id s) (timers s) (exec_stack s).

(** [k] ticks of the [close_timer] of a dialog. *)
Definition ticks (k : nat) (dialog : nat) (s : SchedulerApp) : SchedulerApp :=
  Nat.iter k (dispatch (Close_timer_timeout dialog)) s.

(** What a later state may differ in from an earlier one, as far as ids and
    timers go: the counter never decreases, an id up to the earlier counter
    that is absent stays absent, and a timer of such an id is never
    restarted. *)
Definition evolves_core (events : dict ScheduledEvent) (last : Z)
    (ts : list QTimer) (events' : dict ScheduledEvent) (last' : Z)
    (ts' : list QTimer) : Prop :=
  last <= last'
  /\ (forall id, id <= last -> dict_get id events = None ->
                 dict_get id events' = None)
  /\ (forall r t', ts' !! r = Some t' -> tm_slot t' <= last ->
        exists t, ts !! r = Some t /\ tm_slot t = tm_slot t'
                  /\ (tm_active t' = true -> tm_active t = true)).

Definition evolves (s s' : SchedulerApp) : Prop :=
  evolves_core (scheduled_events s) (last_timer_id s) (timers s)
    (scheduled_events s') (last_timer_id s') (timers s').

(** An id that was assigned and whose event is gone for good. *)
Definition retired (id : Z) (s : SchedulerApp) : Prop :=
  id <= last_timer_id s
  /\ dict_get id (scheduled_events s) = None
  /\ forall r t, timers s !! r = Some t -> tm_slot t = id ->
                 tm_active t = false.

(** The timers after the loop of [cancel_all_scheduled_events] has stopped
    the timer of every item. *)
Definition stop_all (items : list (Z * ScheduledEvent)) (ts : list QTimer)
  : list QTimer :=
  fold_left (fun ts it => alter stopped (it.2.1.1) ts) items ts.

Definition canceled_line (it : Z * ScheduledEvent) : text :=
  Fmt_canceled (it.2.1.2) (it.2.2) false.

(** The log after one "Canceled" line per item, when logging is enabled. *)
Definition logged (items : list (Z * ScheduledEvent)) (s : SchedulerApp)
  : option (list text) :=
  if logging_enable (settings s)
  then (fun lines => lines ++ map canceled_line items) <$> log_file s
  else log_file s.

(** What [cancel_all_scheduled_events] tells the user: the label it leaves
    and the messages it shows. *)
Definition cancel_all_report (s : SchedulerApp) : text * list effect :=
  let s' := exec cancel_all_scheduled_events s in
  (info_label s', drop (length (trace s)) (trace s')).

(** ** The statements of the specification that the code does not meet *)

(** "cancelAll reports the count N of events canceled": the count can be
    read off the report. *)
Definition cancel_all_reports_count : Prop :=
  exists count_of : text * list effect -> nat,
    forall s, count_of (cancel_all_report s) = length (scheduled_events s).

(** "cancelAll leaves the registry empty". *)
Definition cancel_all_empties (s : SchedulerApp) : Prop :=
  scheduled_events (exec cancel_all_scheduled_events s) = [].

(** "A failure to write the log is swallowed, never propagated to the
    caller". *)
Definition log_failure_swallowed (message : text) (s : SchedulerApp) : Prop :=
  result_of (log_event message) s = Return tt.

(** "The auto-sleep is funnelled through the Armed state machine, including
    the pre-notification step when pre-notification is enabled": with
    pre-notification enabled the poll performs nothing yet and leaves a
    cancelable countdown for a sleep on screen. *)
Definition auto_sleep_funnelled (probe : option Z) (s : SchedulerApp) : Prop :=
  let s' := dispatch (Inactivity_timeout probe) s in
  if notifications_enable (settings s) then
    performs (trace s') = performs (trace s)
    /\ exists id dialog d,
         (id, dialog) ∈ exec_stack s' /\ dialogs s' !! dialog = Some d
         /\ dlg_action_type d = sleep /\ dlg_visible d = true
  else
    performs (trace s') =
    performs (trace s) ++ [system_command (on_windows s) sleep].

(** "Canceling an event stops its pending countdown": with the event
    canceled, neither its own timer nor the one-second timer of the dialog
    that pre-notified it runs any more. *)
Definition countdowns_stopped (s : SchedulerApp) (timer_id : Z)
    (dialog : nat) : Prop :=
  (forall r t, timers s !! r = Some t -> tm_slot t = timer_id ->
               tm_active t = false)
  /\ (forall d, dialogs s !! dialog = Some d -> close_timer_active d = false).

(** ** Sample configurations and states *)

Definition cfg_notify (seconds : Z) : Settings :=
  {| notifications_enable := true; notifications_seconds_before := seconds;
     logging_enable := false; startup_enable := false;
     ui_minimize_to_tray := false; auto_sleep_enable := false;
     auto_sleep_timeout_minutes := 30 |}.

Definition cfg_logging : Settings :=
  {| notifications_enable := false; notifications_seconds_before := 30;
     logging_enable := true; startup_enable := false;
     ui_minimize_to_tray := false; auto_sleep_enable := false;
     auto_sleep_timeout_minutes := 30 |}.

Definition cfg_auto_sleep : Settings :=
  {| notifications_enable := true; notifications_seconds_before := 30;
     logging_enable := false; startup_enable := false;
     ui_minimize_to_tray := false; auto_sleep_enable := true;
     auto_sleep_timeout_minutes := 1 |}.

(** A shutdown scheduled five seconds ahead, notifications off. *)
Definition one_shutdown : SchedulerApp :=
  run [Click_schedule shutdown 5000 0] (init default_settings (Some []) false).

(** A restart scheduled two seconds ahead, notifications on, 5 s lead. *)
Definition one_restart_notify : SchedulerApp :=
  run [Click_schedule restart 2000 0] (init (cfg_notify 5) (Some []) false).

(** The restart of [one_restart_notify] two seconds into its
    pre-notification. *)
Definition restart_pre_notifying : SchedulerApp :=
  run [Timer_timeout 0%nat; Close_timer_timeout 0%nat;
       Close_timer_timeout 0%nat] one_restart_notify.

(** Two events, logging off. *)
Definition two_events : SchedulerApp :=
  run [Click_schedule restart 2000 0; Click_schedule shutdown 5000 0]
    (init default_settings (Some []) false).

(** Two events, logging on, and a log file that can no longer be opened. *)
Definition two_events_log_broken : SchedulerApp :=
  run [Click_schedule restart 2000 0; Click_schedule shutdown 5000 0;
       Log_file_status None]
    (init cfg_logging (Some []) false).

(** Auto-sleep after one minute, pre-notification enabled, nothing
    scheduled. *)
Definition idle_machine : SchedulerApp := init cfg_auto_sleep (Some []) false.

(** ** Further notions, for the properties beyond the claims *)

(** Every running timer belongs to a registered event: the id its slot was
    connected with is registered, with this very timer. *)
Definition timers_owned_core (events : dict ScheduledEvent)
    (ts : list QTimer) : Prop :=
  forall r t, ts !! r = Some t -> tm_active t = true ->
    exists a dt, dict_get (tm_slot t) events = Some (r, a, dt).

Definition timers_owned (s : SchedulerApp) : Prop :=
  timers_owned_core (scheduled_events s) (timers s).

(** The keys of the registry in iteration order, each below the next and
    all of them at most [last]. *)
Fixpoint ascending_upto (last : Z) (keys : list Z) : Prop :=
  match keys with
  | [] => True
  | k :: keys' =>
      k <= last /\ (forall k', k' ∈ keys' -> k < k') /\ ascending_upto last keys'
  end.

(** One timeout of the [close_timer] of a dialog object: [on_timeout] while
    the timer runs, nothing once it was stopped. *)
Definition tick_dialog (d : PreActionDialog) : PreActionDialog :=
  if close_timer_active d then on_timeout d else d.

(** [k] polls of the inactivity watchdog with the same probe result. *)
Definition polls (k : nat) (probe : option Z) (s : SchedulerApp)
  : SchedulerApp :=
  Nat.iter k (dispatch (Inactivity_timeout probe)) s.

(** The log of a later state continues the log of an earlier one. *)
Definition log_continues (s s' : SchedulerApp) : Prop :=
  forall lines, log_file s = Some lines ->
    exists more, log_file s' = Some (lines ++ more).

(** The dialog object right after [prepare_for_action] has built it and
    [exec_()] shows it. *)
Definition opened_dialog (a : ActionType) (secs : Z) : PreActionDialog :=
  {| dlg_action_type := a; dlg_timeout := secs;
     dlg_text := Fmt_dialog a secs; close_timer_active := true;
     remaining_time := secs; user_canceled := false; dlg_visible := true |}.

(** The registry of [s'] is that of [s] after some deletions, the counter
    being the same. *)
Definition shrinks (s s' : SchedulerApp) : Prop :=
  last_timer_id s' = last_timer_id s
  /\ exists ids,
       scheduled_events s' =
       fold_left (fun d id => dict_del id d) ids (scheduled_events s).

(** ** The settings dialog

    The widgets of [SettingsDialog] that hold settings. [win] below is
    [platform.system().lower().startswith('win')]; [is_in_registry] is what
    [is_app_in_startup()] answers, and the second component of what
    [on_ok_clicked] returns is the argument of its call of
    [set_app_in_startup], if it makes one. *)
Record SettingsDialog := {
  startup_checkbox : bool;
  pre_action_checkbox : bool;
  pre_action_spinbox : Z;
  logging_checkbox : bool;
  minimize_tray_checkbox : bool;
  auto_sleep_checkbox : bool;
  auto_sleep_spinbox : Z;
  sd_accepted : bool
}.

(** [QSpinBox.setValue] after [setRange(lo, hi)]: the value is brought into
    the range. *)
Definition spin_setValue (lo hi v : Z) : Z := Z.max lo (Z.min hi v).

(** The widgets as [SettingsDialog.__init__] builds them, before it calls
    [load_settings_from_ini]. *)
Definition new_SettingsDialog : SettingsDialog :=
  {| startup_checkbox := false; pre_action_checkbox := false;
     pre_action_spinbox := spin_setValue 5 3600 30; logging_checkbox := false;
     minimize_tray_checkbox := false; auto_sleep_checkbox := false;
     auto_sleep_spinbox := spin_setValue 1 480 30; sd_accepted := false |}.

Definition load_settings_from_ini (win is_in_registry : bool)
    (store : option Settings) (d : SettingsDialog) : SettingsDialog :=
  match store with
  | None => d
  | Some cfg =>
      {| startup_checkbox :=
           if win then is_in_registry else startup_enable cfg;
         pre_action_checkbox := notifications_enable cfg;
         pre_action_spinbox :=
           spin_setValue 5 3600 (notifications_seconds_before cfg);
         logging_checkbox := logging_enable cfg;
         minimize_tray_checkbox := ui_minimize_to_tray cfg;
         auto_sleep_checkbox := auto_sleep_enable cfg;
         auto_sleep_spinbox :=
           spin_setValue 1 480 (auto_sleep_timeout_minutes cfg);
         sd_accepted := sd_accepted d |}
  end.

Definition on_ok_clicked (win : bool) (store : option Settings)
    (d : SettingsDialog) : option Settings * option bool * SettingsDialog :=
  match store with
  | None => (None, None, d)
  | Some cfg =>
      (Some {| notifications_enable := pre_action_checkbox d;
               notifications_seconds_before := pre_action_spinbox d;
               logging_enable := logging_checkbox d;
               startup_enable :=
                 if win then startup_checkbox d else startup_enable cfg;
               ui_minimize_to_tray := minimize_tray_checkbox d;
               auto_sleep_enable := auto_sleep_checkbox d;
               auto_sleep_timeout_minutes := auto_sleep_spinbox d |},
       if win then Some (startup_checkbox d) else None,
       {| startup_checkbox := startup_checkbox d;
          pre_action_checkbox := pre_action_checkbox d;
          pre_action_spinbox := pre_action_spinbox d;
          logging_checkbox := logging_checkbox d;
          minimize_tray_checkbox := minimize_tray_checkbox d;
          auto_sleep_checkbox := auto_sleep_checkbox d;
          auto_sleep_spinbox := auto_sleep_spinbox d;
          sd_accepted := true |})
  end.

(** [SettingsDialog(self, self.settings)] followed by OK with no edit in
    between: the settings the store then holds. *)
Definition open_and_accept (win is_in_registry : bool) (cfg : Settings)
  : option Settings :=
  (on_ok_clicked win (Some cfg)
     (load_settings_from_ini win is_in_registry (Some cfg)
        new_SettingsDialog)).1.1.

(** A configuration inside the ranges of the two spin boxes. *)
Definition in_ranges (cfg : Settings) : Prop :=
  5 <= notifications_seconds_before cfg <= 3600
  /\ 1 <= auto_sleep_timeout_minutes cfg <= 480.

(** More sample states. *)

(** A lead time of zero seconds, as only a hand-edited [config.ini] can
    hold. *)
Definition one_restart_notify_zero : SchedulerApp :=
  run [Click_schedule restart 2000 0] (init (cfg_notify 0) (Some []) false).

(** Logging on and the log file unwritable before anything is scheduled. *)
Definition log_broken_idle : SchedulerApp :=
  init cfg_logging None false.

Definition cfg_auto_sleep_quiet : Settings :=
  {| notifications_enable := false; notifications_seconds_before := 30;
     logging_enable := false; startup_enable := false;
     ui_minimize_to_tray := false; auto_sleep_enable := true;
     auto_sleep_timeout_minutes := 1 |}.

(** A configuration outside both ranges. *)
Definition cfg_out_of_range : Settings :=
  {| notifications_enable := true; notifications_seconds_before := 0;
     logging_enable := true; startup_enable := true;
     ui_minimize_to_tray := false; auto_sleep_enable := true;
     auto_sleep_timeout_minutes := 10000 |}.

(** * Properties *)

(** ** Dictionaries *)

Section DictFacts.
Context {V : Type}.
Implicit Types (d : dict V) (k : Z) (v : V).

Lemma dict_get_None k d : dict_get k d = None <-> k ∉ dict_keys d.
Proof.
  unfold dict_keys. induction d as [|[k' v'] d IH]; simpl.
  - split; [intros _; apply not_elem_of_nil | done].
  - rewrite not_elem_of_cons. destruct (Z.eqb_spec k k') as [->|Hne].
    + split; [done | intros [? _]; done].
    + rewrite IH. tauto.
Qed.

Lemma dict_get_Some_key k d v : dict_get k d = Some v -> k ∈ dict_keys d.
Proof.
  intros H. destruct (decide (k ∈ dict_keys d)) as [|Hn]; [done|].
  apply dict_get_None in Hn. congruence.
Qed.

Lemma dict_in_true k d : dict_in k d = true <-> k ∈ dict_keys d.
Proof.
  unfold dict_in. destruct (dict_get k d) eqn:E.
  - split; [intros _; eauto using dict_get_Some_key | done].
  - apply dict_get_None in E. split; [done | intros; contradiction].
Qed.

Lemma dict_in_false k d : dict_in k d = false <-> dict_get k d = None.
Proof. unfold dict_in. destruct (dict_get k d); split; congruence. Qed.

Lemma dict_get_del_ne k k' d :
  k <> k' -> dict_get k' (dict_del k d) = dict_get k' d.
Proof.
  intros Hne. induction d as [|[k1 v1] d IH]; simpl; [done|].
  destruct (Z.eqb_spec k k1) as [->|Hk]; simpl.
  - destruct (Z.eqb_spec k' k1); [congruence | done].
  - by rewrite IH.
Qed.

Lemma dict_keys_del_subseteq k d : dict_keys (dict_del k d) ⊆ dict_keys d.
Proof.
  unfold dict_keys. induction d as [|[k1 v1] d IH]; simpl; [done|].
  destruct (Z.eqb k k1); simpl.
  - intros x Hx. apply elem_of_cons. by right.
  - intros x. rewrite !elem_of_cons. intros [->|Hx]; [by left|].
    right. by apply IH.
Qed.

Lemma dict_del_NoDup k d :
  NoDup (dict_keys d) -> NoDup (dict_keys (dict_del k d)).
Proof.
  unfold dict_keys. induction d as [|[k1 v1] d IH]; simpl; [done|].
  rewrite NoDup_cons. intros [Hk1 Hd].
  destruct (Z.eqb k k1); simpl; [done|].
  rewrite NoDup_cons. split; [|by apply IH].
  intros Hin. by apply Hk1, (dict_keys_del_subseteq k d).
Qed.

Lemma dict_get_del_eq k d :
  NoDup (dict_keys d) -> dict_get k (dict_del k d) = None.
Proof.
  unfold dict_keys. induction d as [|[k1 v1] d IH]; simpl; [done|].
  rewrite NoDup_cons. intros [Hk1 Hd].
  destruct (Z.eqb_spec k k1) as [->|Hk]; simpl.
  - by apply dict_get_None.
  - destruct (Z.eqb_spec k k1); [done|]. by apply IH.
Qed.

Lemma dict_set_fresh k v d :
  dict_get k d = None -> dict_set k v d = d ++ [(k, v)].
Proof.
  induction d as [|[k1 v1] d IH]; simpl; [done|].
  destruct (Z.eqb k k1); [done|]. intros H. by rewrite IH.
Qed.

Lemma dict_get_snoc k k' v d :
  dict_get k' (d ++ [(k, v)]) =
  match dict_get k' d with
  | Some w => Some w
  | None => if Z.eqb k' k then Some v else None
  end.
Proof.
  induction d as [|[k1 v1] d IH]; simpl; [done|].
  destruct (Z.eqb k' k1); [done | apply IH].
Qed.
End DictFacts.

(** ** Timers *)

Lemma stopped_inactive t : tm_active t = false -> stopped t = t.
Proof. destruct t; simpl; intros ->; reflexivity. Qed.

Lemma alter_stopped_inactive timer (ts : list QTimer) t :
  ts !! timer = Some t -> tm_active t = false -> alter stopped timer ts = ts.
Proof.
  revert timer. induction ts as [|t0 ts IH]; intros [|timer]; simpl; try done.
  - intros [= ->] H. by rewrite stopped_inactive.
  - intros H1 H2. f_equal. by apply IH.
Qed.

Lemma slots_alter_stopped timer (ts : list QTimer) :
  tm_slot <$> alter stopped timer ts = tm_slot <$> ts.
Proof.
  revert timer. induction ts as [|t0 ts IH]; intros [|timer]; simpl; try done.
  f_equal. apply IH.
Qed.

Lemma lookup_alter_stopped timer (ts : list QTimer) r t' :
  alter stopped timer ts !! r = Some t' ->
  exists t, ts !! r = Some t /\ tm_slot t' = tm_slot t
            /\ (r <> timer -> t' = t) /\ (r = timer -> tm_active t' = false).
Proof.
  rewrite list_lookup_alter. case_decide as Hd.
  - subst r. destruct (ts !! timer) as [t|]; simpl; [|done].
    intros [= <-]. exists t. by repeat split.
  - intros H. exists t'. repeat split; [done | congruence].
Qed.

Lemma timer_of_slot_unique (ts : list QTimer) r1 r2 t1 t2 :
  NoDup (tm_slot <$> ts) ->
  ts !! r1 = Some t1 -> ts !! r2 = Some t2 -> tm_slot t1 = tm_slot t2 ->
  r1 = r2.
Proof.
  intros Hnd H1 H2 Heq.
  apply (NoDup_lookup _ r1 r2 (tm_slot t1) Hnd);
    rewrite list_lookup_fmap; [by rewrite H1 | by rewrite H2, Heq].
Qed.

(** ** Steps that keep the invariant *)

Section InvCore.
Implicit Types (events : dict ScheduledEvent) (ts : list QTimer)
  (stack : list (Z * nat)).

Lemma Inv_core_event_slot events last ts stack id timer a dt t :
  Inv_core events last ts stack ->
  dict_get id events = Some (timer, a, dt) -> ts !! timer = Some t ->
  tm_slot t = id.
Proof.
  intros (_ & He & _) Hg Ht.
  destruct (He _ _ _ _ Hg) as (_ & t0 & Ht0 & Hs & _). congruence.
Qed.

Lemma Inv_core_del events last ts stack id :
  Inv_core events last ts stack ->
  Inv_core (dict_del id events) last ts stack.
Proof.
  intros (Hnd & He & Hrest). split; [by apply dict_del_NoDup|].
  split; [|exact Hrest].
  intros id' timer a dt Hg. destruct (decide (id = id')) as [<-|Hne].
  - by rewrite dict_get_del_eq in Hg.
  - rewrite dict_get_del_ne in Hg by done. eauto.
Qed.

Lemma Inv_core_pop events last ts stack id dialog :
  Inv_core events last ts ((id, dialog) :: stack) ->
  dict_get id events = None ->
  Inv_core events last ts stack.
Proof.
  intros (Hnd & He & Hb & Hs & Hf) Hnone.
  split; [done|]. split; [|split; [done|]; split; [done|]].
  - intros id' timer a dt Hg.
    destruct (He _ _ _ _ Hg) as (Hle & t & Ht & Hslot & Hin).
    split; [done|]. exists t. split; [done|]. split; [done|].
    intros Hoff. specialize (Hin Hoff). simpl in Hin.
    apply elem_of_cons in Hin as [->|Hin]; [congruence | done].
  - intros id' Hid. apply Hf. simpl. apply elem_of_cons. by right.
Qed.

Lemma Inv_core_stop events last ts stack timer :
  Inv_core events last ts stack ->
  (forall id a dt, dict_get id events <> Some (timer, a, dt)) ->
  Inv_core events last (alter stopped timer ts) stack.
Proof.
  intros (Hnd & He & Hb & Hs & Hf) Hfree.
  split; [done|]. split; [|split; [|split]].
  - intros id r a dt Hg.
    destruct (He _ _ _ _ Hg) as (Hle & t & Ht & Hslot & Hin).
    split; [done|]. exists t. split; [|done].
    rewrite list_lookup_alter_ne; [done|]. intros ->. by eapply Hfree.
  - intros r t' Ht'.
    apply lookup_alter_stopped in Ht' as (t & Ht & -> & _). eauto.
  - by rewrite slots_alter_stopped.
  - intros id Hid. destruct (Hf id Hid) as [Hle Hoff]. split; [done|].
    intros r t' Ht' Hslot.
    apply lookup_alter_stopped in Ht' as (t & Ht & Hsl & Hne & Heq).
    destruct (decide (r = timer)) as [->|Hr]; [by apply Heq|].
    rewrite (Hne Hr). apply (Hoff r); [done|]. by rewrite <- (Hne Hr).
Qed.

Lemma Inv_core_del_stop events last ts stack timer t :
  Inv_core events last ts stack -> ts !! timer = Some t ->
  Inv_core (dict_del (tm_slot t) events) last (alter stopped timer ts) stack.
Proof.
  intros HI Ht. apply Inv_core_stop; [by apply Inv_core_del|].
  intros id a dt Hg. destruct (decide (tm_slot t = id)) as [<-|Hne].
  - rewrite dict_get_del_eq in Hg; [done | apply HI].
  - rewrite dict_get_del_ne in Hg by done.
    apply Hne. eauto using Inv_core_event_slot.
Qed.

Lemma Inv_core_fire_absent events last ts stack timer t :
  Inv_core events last ts stack -> ts !! timer = Some t ->
  dict_get (tm_slot t) events = None ->
  Inv_core events last (alter stopped timer ts) stack.
Proof.
  intros HI Ht Hnone. apply Inv_core_stop; [done|].
  intros id a dt Hg.
  rewrite <- (Inv_core_event_slot _ _ _ _ _ _ _ _ _ HI Hg Ht) in Hg.
  congruence.
Qed.

Lemma Inv_core_fire_push events last ts stack timer t dialog :
  Inv_core events last ts stack -> ts !! timer = Some t ->
  Inv_core events last (alter stopped timer ts)
    ((tm_slot t, dialog) :: stack).
Proof.
  intros (Hnd & He & Hb & Hs & Hf) Ht.
  split; [done|]. split; [|split; [|split]].
  - intros id r a dt Hg.
    destruct (He _ _ _ _ Hg) as (Hle & t0 & Ht0 & Hslot & Hin).
    split; [done|]. destruct (decide (r = timer)) as [->|Hne].
    + exists (stopped t0). rewrite list_lookup_alter_eq, Ht0.
      split; [done|]. split; [done|]. intros _. simpl.
      apply elem_of_cons. left. congruence.
    + exists t0. rewrite list_lookup_alter_ne by done.
      split; [done|]. split; [done|]. intros Hoff. simpl.
      apply elem_of_cons. right. by apply Hin.
  - intros r t' Ht'.
    apply lookup_alter_stopped in Ht' as (t0 & Ht0 & -> & _). eauto.
  - by rewrite slots_alter_stopped.
  - intros id Hid. simpl in Hid. split.
    + apply elem_of_cons in Hid as [->|Hid]; [eauto | by apply Hf].
    + intros r t' Ht' Hslot.
      apply lookup_alter_stopped in Ht' as (t0 & Ht0 & Hsl & Hne & Heq).
      destruct (decide (r = timer)) as [->|Hr]; [by apply Heq|].
      rewrite (Hne Hr). apply elem_of_cons in Hid as [->|Hid].
      * exfalso. apply Hr.
        apply (timer_of_slot_unique ts r timer t0 t); try done. congruence.
      * destruct (Hf id Hid) as [_ Hoff]. apply (Hoff r); [done | congruence].
Qed.

Lemma Inv_core_schedule events last ts stack a dt interval :
  Inv_core events last ts stack ->
  Inv_core (dict_set (last + 1) (length ts, a, dt) events) (last + 1)
    (ts ++ [{| tm_interval := interval; tm_active := true;
               tm_slot := last + 1 |}]) stack.
Proof.
  intros (Hnd & He & Hb & Hs & Hf).
  assert (Hkeys : forall k, k ∈ dict_keys events -> k <= last).
  { intros k Hk. destruct (dict_get k events) as [[[r a'] dt']|] eqn:E.
    - by apply (He _ _ _ _ E).
    - by apply dict_get_None in E. }
  assert (Hfresh : dict_get (last + 1) events = None).
  { apply dict_get_None. intros Hk. apply Hkeys in Hk. lia. }
  rewrite dict_set_fresh by done.
  split; [|split; [|split; [|split]]].
  - unfold dict_keys. rewrite fmap_app. apply NoDup_app.
    split; [done|]. split; [|apply NoDup_singleton].
    intros k Hk. simpl. rewrite list_elem_of_singleton.
    apply Hkeys in Hk. lia.
  - intros id timer a' dt'. rewrite dict_get_snoc.
    destruct (dict_get id events) as [[[r a0] dt0]|] eqn:E.
    + intros [= -> -> ->].
      destruct (He _ _ _ _ E) as (Hle & t & Ht & Hslot & Hin).
      split; [lia|]. exists t. split; [|done].
      by apply lookup_app_l_Some.
    + destruct (Z.eqb_spec id (last + 1)) as [->|]; [|done].
      intros [= <- <- <-]. split; [lia|].
      eexists. split; [apply list_lookup_middle; done|]. simpl.
      split; [done | discriminate].
  - intros r t. rewrite lookup_snoc_Some.
    intros [[_ Ht] | [_ <-]]; simpl; [|lia]. apply Hb in Ht. lia.
  - rewrite fmap_app. apply NoDup_app.
    split; [done|]. split; [|apply NoDup_singleton].
    intros k Hk. simpl. rewrite list_elem_of_singleton.
    apply list_elem_of_fmap in Hk as (t & -> & Ht).
    apply list_elem_of_lookup in Ht as [r Hr]. apply Hb in Hr. lia.
  - intros id Hid. destruct (Hf id Hid) as [Hle Hoff].
    split; [lia|]. intros r t. rewrite lookup_snoc_Some.
    intros [[_ Ht] | [_ <-]]; simpl; [by eauto | lia].
Qed.

(** The id that [schedule_action] gives up when [timer.start] raises: the
    counter has moved and an unstarted timer is left. *)
Lemma Inv_core_burn events last ts stack :
  Inv_core events last ts stack ->
  Inv_core events (last + 1)
    (ts ++ [{| tm_interval := 0; tm_active := false; tm_slot := last + 1 |}])
    stack.
Proof.
  intros (Hnd & He & Hb & Hs & Hf).
  split; [done|]. split; [|split; [|split]].
  - intros id timer a dt Hg.
    destruct (He _ _ _ _ Hg) as (Hle & t & Ht & Hslot & Hin).
    split; [lia|]. exists t. split; [|done]. by apply lookup_app_l_Some.
  - intros r t. rewrite lookup_snoc_Some.
    intros [[_ Ht] | [_ <-]]; simpl; [|lia]. apply Hb in Ht. lia.
  - rewrite fmap_app. apply NoDup_app.
    split; [done|]. split; [|apply NoDup_singleton].
    intros k Hk. simpl. rewrite list_elem_of_singleton.
    apply list_elem_of_fmap in Hk as (t & -> & Ht).
    apply list_elem_of_lookup in Ht as [r Hr]. apply Hb in Hr. lia.
  - intros id Hid. destruct (Hf id Hid) as [Hle Hoff].
    split; [lia|]. intros r t. rewrite lookup_snoc_Some.
    intros [[_ Ht] | [_ <-]]; simpl; [by eauto | lia].
Qed.
End InvCore.

(** ** The methods, one by one *)

Ltac py_unfold :=
  unfold execute_action, cancel_event, prepare_for_action,
    prepare_for_action_resume, schedule_action, check_inactivity,
    cancel_all_scheduled_events, perform_system_action, log_event, emit,
    timer_isActive, timer_stop, new_timer, new_PreActionDialog, dialog_exec,
    bind, ret, raise, gets, modify, exec, result_of.

Ltac py_log s :=
  destruct (logging_enable (settings s)); cbn;
  [destruct (log_file s); cbn|].

Lemma performs_app tr1 tr2 : performs (tr1 ++ tr2) = performs tr1 ++ performs tr2.
Proof.
  induction tr1 as [|[c|? ? ? ?] tr1 IH]; simpl; [done| |done].
  by rewrite IH.
Qed.

Lemma execute_action_absent id s :
  dict_get id (scheduled_events s) = None ->
  execute_action id s = (Return tt, s).
Proof. intros H. py_unfold. by rewrite H. Qed.

Lemma execute_action_present id s timer a dt :
  dict_get id (scheduled_events s) = Some (timer, a, dt) ->
  let s' := exec (execute_action id) s in
  scheduled_events s' = dict_del id (scheduled_events s)
  /\ last_timer_id s' = last_timer_id s
  /\ timers s' = timers s
  /\ exec_stack s' = exec_stack s
  /\ dialogs s' = dialogs s
  /\ settings s' = settings s
  /\ on_windows s' = on_windows s
  /\ performs (trace s') =
     performs (trace s) ++ [system_command (on_windows s) a].
Proof.
  intros H. py_unfold. rewrite H. cbn. py_log s;
    rewrite ?performs_app; simpl; rewrite ?app_nil_r; done.
Qed.

Lemma cancel_event_absent id user_triggered s :
  dict_get id (scheduled_events s) = None ->
  cancel_event id user_triggered s = (Return tt, s).
Proof. intros H. py_unfold. by rewrite H. Qed.

Lemma cancel_event_present id user_triggered s timer a dt :
  dict_get id (scheduled_events s) = Some (timer, a, dt) ->
  let s' := exec (cancel_event id user_triggered) s in
  scheduled_events s' = dict_del id (scheduled_events s)
  /\ last_timer_id s' = last_timer_id s
  /\ timers s' = alter stopped timer (timers s)
  /\ exec_stack s' = exec_stack s
  /\ dialogs s' = dialogs s
  /\ settings s' = settings s
  /\ on_windows s' = on_windows s
  /\ performs (trace s') = performs (trace s).
Proof.
  intros H. py_unfold. rewrite H. cbn.
  destruct (timers s !! timer) as [t|] eqn:Ht.
  - destruct (tm_active t) eqn:Hact; cbn; py_log s;
      rewrite ?performs_app, ?(alter_stopped_inactive _ _ _ Ht Hact);
      simpl; rewrite ?app_nil_r; done.
  - assert (alter stopped timer (timers s) = timers s) as ->.
    { apply list_eq. intros i. rewrite list_lookup_alter.
      case_decide; [subst; by rewrite Ht | done]. }
    py_log s; rewrite ?performs_app; simpl; rewrite ?app_nil_r; done.
Qed.

Lemma alter_stopped_noop timer (ts : list QTimer) :
  match ts !! timer with Some t => tm_active t | None => false end = false ->
  alter stopped timer ts = ts.
Proof.
  destruct (ts !! timer) as [t|] eqn:Ht; intros H.
  - by apply (alter_stopped_inactive _ _ t).
  - apply list_eq. intros i. rewrite list_lookup_alter.
    case_decide; [subst; by rewrite Ht | done].
Qed.

Lemma alter_shown_last (ds : list PreActionDialog) d :
  alter shown (length ds) (ds ++ [d]) = ds ++ [shown d].
Proof. induction ds as [|d0 ds IH]; simpl; [done|]. f_equal. apply IH. Qed.

Lemma prepare_for_action_absent id s :
  dict_get id (scheduled_events s) = None ->
  prepare_for_action id s = (Return tt, s).
Proof. intros H. py_unfold. by rewrite H. Qed.

Lemma prepare_for_action_direct id s ev :
  dict_get id (scheduled_events s) = Some ev ->
  notifications_enable (settings s) = false ->
  prepare_for_action id s = execute_action id s.
Proof.
  intros H Hoff. destruct ev as [[timer a] dt].
  unfold prepare_for_action. unfold bind at 1, gets at 1. rewrite H.
  unfold bind at 1, gets at 1. by rewrite Hoff.
Qed.

Lemma prepare_for_action_notify id s timer a dt :
  dict_get id (scheduled_events s) = Some (timer, a, dt) ->
  notifications_enable (settings s) = true ->
  let n := notifications_seconds_before (settings s) in
  prepare_for_action id s =
  (Return tt,
   with_exec_stack ((id, length (dialogs s)) :: exec_stack s)
     (with_dialogs
        (dialogs s ++ [{| dlg_action_type := a; dlg_timeout := n;
                          dlg_text := Fmt_dialog a n;
                          close_timer_active := true; remaining_time := n;
                          user_canceled := false; dlg_visible := true |}])
        (with_trace
           (trace s ++ [ShowMessage (Lit "Action About to Happen")
                          (Fmt_about_to_happen a n) Warning 5000]) s))).
Proof.
  intros H Hon. py_unfold. rewrite H. cbn. rewrite Hon. cbn.
  by rewrite alter_shown_last.
Qed.

Lemma delay_not_positive scheduled_datetime current_time :
  Qle_bool (Qmake (scheduled_datetime - current_time) 1000) (inject_Z 0)
  = (scheduled_datetime <=? current_time).
Proof.
  unfold Qle_bool, inject_Z. simpl. rewrite Z.mul_1_r.
  destruct (Z.leb_spec (scheduled_datetime - current_time) 0);
    destruct (Z.leb_spec scheduled_datetime current_time); lia.
Qed.

Lemma schedule_action_past a scheduled_datetime current_time s :
  scheduled_datetime <= current_time ->
  schedule_action a scheduled_datetime current_time s =
  (Return tt,
   with_info_label
     (Lit "The selected time is in the past. Please choose a future time.")
     s).
Proof.
  intros H. unfold schedule_action. rewrite delay_not_positive.
  apply Z.leb_le in H. by rewrite H.
Qed.

Lemma schedule_action_future a scheduled_datetime current_time s :
  current_time < scheduled_datetime ->
  c_int (interval_msec scheduled_datetime current_time) = true ->
  let s' := exec (schedule_action a scheduled_datetime current_time) s in
  exists interval,
  scheduled_events s' =
    dict_set (last_timer_id s + 1)
      (length (timers s), a, scheduled_datetime) (scheduled_events s)
  /\ last_timer_id s' = last_timer_id s + 1
  /\ timers s' = timers s ++ [{| tm_interval := interval; tm_active := true;
                                 tm_slot := last_timer_id s + 1 |}]
  /\ exec_stack s' = exec_stack s
  /\ dialogs s' = dialogs s
  /\ settings s' = settings s
  /\ on_windows s' = on_windows s
  /\ performs (trace s') = performs (trace s).
Proof.
  intros H Hfit. unfold schedule_action. rewrite delay_not_positive.
  apply Z.leb_gt in H. rewrite H. eexists. py_unfold. cbn. rewrite Hfit. cbn.
  py_log s; rewrite ?performs_app; simpl; rewrite ?app_nil_r; done.
Qed.

Lemma schedule_action_overflow a scheduled_datetime current_time s :
  current_time < scheduled_datetime ->
  c_int (interval_msec scheduled_datetime current_time) = false ->
  schedule_action a scheduled_datetime current_time s =
  (Raise OverflowError,
   with_timers
     (timers s ++ [{| tm_interval := 0; tm_active := false;
                      tm_slot := last_timer_id s + 1 |}])
     (with_last_timer_id (last_timer_id s + 1) s)).
Proof.
  intros H Hfit. unfold schedule_action. rewrite delay_not_positive.
  apply Z.leb_gt in H. rewrite H. py_unfold. cbn. by rewrite Hfit.
Qed.

(** The three ways [schedule_action] can go. *)
Lemma schedule_action_cases scheduled_datetime current_time :
  scheduled_datetime <= current_time
  \/ (current_time < scheduled_datetime
      /\ c_int (interval_msec scheduled_datetime current_time) = true)
  \/ (current_time < scheduled_datetime
      /\ c_int (interval_msec scheduled_datetime current_time) = false).
Proof.
  destruct (Z.le_gt_cases scheduled_datetime current_time) as [H|H];
    [by left|].
  destruct (c_int (interval_msec scheduled_datetime current_time));
    [right; by left | right; by right].
Qed.

Lemma check_inactivity_frame probe s :
  exists tr, check_inactivity probe s = (Return tt, with_trace tr s).
Proof.
  assert (Hs : s = with_trace (trace s) s) by (by destruct s).
  py_unfold. cbn. destruct (auto_sleep_enable (settings s)); cbn.
  - match goal with |- context [Qle_bool ?a ?b] =>
      destruct (Qle_bool a b) end; eauto.
    exists (trace s). by rewrite <- Hs.
  - exists (trace s). by rewrite <- Hs.
Qed.

(** One round of the loop of [cancel_all_scheduled_events]. *)
Lemma cancel_all_loop_cons id timer a dt rest s :
  cancel_all_loop ((id, (timer, a, dt)) :: rest) s =
  let s1 := with_scheduled_events (dict_del id (scheduled_events s))
              (with_timers (alter stopped timer (timers s)) s) in
  match log_event (Fmt_canceled a dt false) s1 with
  | (Return _, s2) => cancel_all_loop rest s2
  | (Raise e, s2) => (Raise e, s2)
  end.
Proof.
  simpl. unfold bind at 1. unfold timer_isActive, gets.
  destruct (match timers s !! timer with
            | Some t => tm_active t | None => false end) eqn:Hact.
  - reflexivity.
  - rewrite (alter_stopped_noop _ _ Hact). unfold bind at 1, ret.
    unfold bind at 1, modify. unfold bind at 1.
    assert (with_timers (timers s) s = s) as -> by (by destruct s).
    reflexivity.
Qed.

(** ** The invariant holds in every reachable state *)

Lemma Inv_execute_action id s : Inv s -> Inv (exec (execute_action id) s).
Proof.
  intros HI. destruct (dict_get id (scheduled_events s)) as [[[r a] dt]|] eqn:E.
  - destruct (execute_action_present _ _ _ _ _ E) as (H1 & H2 & H3 & H4 & _).
    unfold Inv. rewrite H1, H2, H3, H4. by apply Inv_core_del.
  - unfold exec. by rewrite execute_action_absent.
Qed.

Lemma Inv_cancel_event id user_triggered s :
  Inv s -> Inv (exec (cancel_event id user_triggered) s).
Proof.
  intros HI. destruct (dict_get id (scheduled_events s)) as [[[r a] dt]|] eqn:E.
  - destruct (cancel_event_present _ user_triggered _ _ _ _ E)
      as (H1 & H2 & H3 & H4 & _).
    unfold Inv. rewrite H1, H2, H3, H4.
    destruct HI as (Hnd & He & Hrest).
    destruct (He _ _ _ _ E) as (_ & t & Ht & <- & _).
    apply Inv_core_del_stop; [|done]. by split.
  - unfold exec. by rewrite cancel_event_absent.
Qed.

Lemma Inv_log_event message s : Inv s -> Inv (exec (log_event message) s).
Proof. intros HI. py_unfold. cbn. py_log s; done. Qed.

Lemma log_event_outcome message s :
  log_event message s = (Return tt, s)
  \/ (exists lines, log_event message s =
        (Return tt, with_log_file (Some (lines ++ [message])) s))
  \/ log_event message s = (Raise OSError, s).
Proof. py_unfold. cbn. py_log s; eauto. Qed.

Lemma Inv_cancel_all_loop items s :
  scheduled_events s = items -> Inv s -> Inv (exec (cancel_all_loop items) s).
Proof.
  revert s. induction items as [|[id [[timer a] dt]] rest IH]; intros s Hs HI.
  - exact HI.
  - unfold exec. rewrite cancel_all_loop_cons. cbn zeta.
    set (s1 := with_scheduled_events _ _).
    assert (Hs1 : scheduled_events s1 = rest).
    { unfold s1. simpl. rewrite Hs. simpl. by rewrite Z.eqb_refl. }
    assert (HI1 : Inv s1).
    { unfold Inv, s1. simpl.
      assert (E : dict_get id (scheduled_events s) = Some (timer, a, dt)).
      { rewrite Hs. simpl. by rewrite Z.eqb_refl. }
      destruct HI as (Hnd & He & Hrest).
      destruct (He _ _ _ _ E) as (_ & t & Ht & <- & _).
      apply Inv_core_del_stop; [|done]. by split. }
    destruct (log_event_outcome (Fmt_canceled a dt false) s1)
      as [-> | [[lines ->] | ->]].
    + by apply IH.
    + apply IH; [exact Hs1 | exact HI1].
    + exact HI1.
Qed.

Lemma Inv_schedule_action a scheduled_datetime current_time s :
  Inv s -> Inv (exec (schedule_action a scheduled_datetime current_time) s).
Proof.
  intros HI.
  destruct (schedule_action_cases scheduled_datetime current_time)
    as [H | [[H Hfit] | [H Hfit]]].
  - unfold exec. by rewrite schedule_action_past.
  - destruct (schedule_action_future a _ _ s H Hfit)
      as (interval & H1 & H2 & H3 & H4 & _).
    unfold Inv. rewrite H1, H2, H3, H4. by apply Inv_core_schedule.
  - unfold exec. rewrite (schedule_action_overflow a _ _ s H Hfit).
    unfold Inv. simpl. by apply Inv_core_burn.
Qed.

Lemma Inv_timer_timeout timer t s :
  Inv s -> timers s !! timer = Some t ->
  Inv (exec (prepare_for_action (tm_slot t))
         (with_timers (alter stopped timer (timers s)) s)).
Proof.
  intros HI Ht. set (s1 := with_timers _ s).
  destruct (dict_get (tm_slot t) (scheduled_events s1))
    as [[[r a] dt]|] eqn:E.
  - destruct (notifications_enable (settings s1)) eqn:Hn.
    + unfold exec. rewrite (prepare_for_action_notify _ _ _ _ _ E Hn).
      unfold Inv. simpl. by apply Inv_core_fire_push.
    + unfold exec. rewrite (prepare_for_action_direct _ _ _ E Hn).
      destruct (execute_action_present _ _ _ _ _ E) as (H1 & H2 & H3 & H4 & _).
      unfold exec in *. unfold Inv. rewrite H1, H2, H3, H4. simpl.
      by apply Inv_core_del_stop.
  - unfold exec. rewrite prepare_for_action_absent by done.
    unfold Inv. simpl. by apply (Inv_core_fire_absent _ _ _ _ _ t).
Qed.

Lemma Inv_exec_returns id dialog rest d s :
  Inv s -> exec_stack s = (id, dialog) :: rest -> dialogs s !! dialog = Some d ->
  Inv (exec (prepare_for_action_resume id dialog) (with_exec_stack rest s)).
Proof.
  intros HI Hst Hd. set (s0 := with_exec_stack rest s).
  unfold Inv in HI. rewrite Hst in HI.
  unfold prepare_for_action_resume, exec, bind at 1, gets at 1.
  change (dialogs s0) with (dialogs s). rewrite Hd.
  destruct (dict_get id (scheduled_events s0)) as [[[r a] dt]|] eqn:E.
  - assert (Hgone : dict_get id (dict_del id (scheduled_events s)) = None)
      by (apply dict_get_del_eq, HI).
    destruct (user_canceled d).
    + destruct (cancel_event_present _ true _ _ _ _ E)
        as (H1 & H2 & H3 & H4 & _).
      unfold exec in *. unfold Inv. rewrite H1, H2, H3, H4. simpl.
      destruct (proj1 (proj2 HI) _ _ _ _ E) as (_ & t & Ht & Hslot & _).
      subst id. apply (Inv_core_pop _ _ _ _ (tm_slot t) dialog); [|done].
      by apply Inv_core_del_stop.
    + destruct (execute_action_present _ _ _ _ _ E)
        as (H1 & H2 & H3 & H4 & _).
      unfold exec in *. unfold Inv. rewrite H1, H2, H3, H4. simpl.
      apply (Inv_core_pop _ _ _ _ id dialog); [|done].
      by apply Inv_core_del.
  - assert (Inv s0) by (by apply (Inv_core_pop _ _ _ _ id dialog)).
    destruct (user_canceled d).
    + by rewrite cancel_event_absent.
    + by rewrite execute_action_absent.
Qed.

Lemma Inv_init cfg log windows : Inv (init cfg log windows).
Proof.
  unfold Inv, Inv_core, init, dict_keys. simpl.
  split; [apply NoDup_nil_2|]. split; [done|]. split; [done|].
  split; [apply NoDup_nil_2|]. intros id Hid. by apply elem_of_nil in Hid.
Qed.

Lemma Inv_dispatch e s : Inv s -> Inv (dispatch e s).
Proof.
  intros HI. unfold dispatch. destruct e; simpl.
  - by apply Inv_schedule_action.
  - unfold cancel_all_scheduled_events, exec, bind at 1, gets at 1.
    destruct (scheduled_events s) as [|it items] eqn:E; [done|].
    unfold bind at 1.
    pose proof (Inv_cancel_all_loop (it :: items) s E HI) as HI'.
    unfold exec in HI'. destruct (cancel_all_loop (it :: items) s) as [[[]|e] s'];
      done.
  - unfold exec, bind at 1, gets at 1.
    destruct (timers s !! timer) as [t|] eqn:Ht; [|done].
    destruct (tm_active t); [|done].
    unfold bind at 1, timer_stop, modify.
    by apply Inv_timer_timeout.
  - unfold exec, bind at 1, gets at 1.
    destruct (dialogs s !! dialog) as [d|]; [|done].
    destruct (close_timer_active d); done.
  - unfold exec, bind at 1, gets at 1.
    destruct (dialogs s !! dialog) as [d|]; [|done].
    destruct (dlg_visible d); done.
  - unfold exec, bind at 1, gets at 1.
    destruct (dialogs s !! dialog) as [d|]; [|done].
    destruct (dlg_visible d); done.
  - unfold exec, bind at 1, gets at 1.
    destruct (exec_stack s) as [|[id dialog] rest] eqn:Hst; [done|].
    unfold bind at 1, gets at 1.
    destruct (dialogs s !! dialog) as [d|] eqn:Hd; [|done].
    destruct (dlg_visible d); [done|].
    unfold bind at 1, modify.
    by apply (Inv_exec_returns id dialog rest d).
  - destruct (check_inactivity_frame probe s) as [tr Htr].
    unfold exec. by rewrite Htr.
  - done.
  - done.
Qed.

Lemma reachable_Inv s : reachable s -> Inv s.
Proof.
  induction 1 as [cfg log windows | s e _ IH];
    [apply Inv_init | by apply Inv_dispatch].
Qed.

Lemma reachable_run es s : reachable s -> reachable (run es s).
Proof.
  revert s. induction es as [|e es IH]; intros s Hs; [done|].
  simpl. apply IH. by constructor.
Qed.

(** ** Ids and timers only move forward *)

Lemma dict_get_set_ne {V} k k' (v : V) d :
  k <> k' -> dict_get k' (dict_set k v d) = dict_get k' d.
Proof.
  intros Hne. induction d as [|[k1 v1] d IH]; simpl.
  - destruct (Z.eqb_spec k' k); [congruence | done].
  - destruct (Z.eqb_spec k k1) as [->|Hk]; simpl.
    + destruct (Z.eqb_spec k' k1); [congruence | done].
    + by rewrite IH.
Qed.

Lemma dict_get_set_eq {V} k (v : V) d : dict_get k (dict_set k v d) = Some v.
Proof.
  induction d as [|[k1 v1] d IH]; simpl.
  - by rewrite Z.eqb_refl.
  - destruct (Z.eqb_spec k k1) as [->|Hk]; simpl.
    + by rewrite Z.eqb_refl.
    + destruct (Z.eqb_spec k k1); [done | apply IH].
Qed.

Lemma dict_get_del_None {V} k k' (d : dict V) :
  dict_get k' d = None -> dict_get k' (dict_del k d) = None.
Proof.
  rewrite !dict_get_None. intros Hn Hin.
  by apply Hn, (dict_keys_del_subseteq k d).
Qed.

Section Evolves.
Implicit Types (events : dict ScheduledEvent) (ts : list QTimer).

Lemma evolves_core_refl events last ts :
  evolves_core events last ts events last ts.
Proof.
  split; [lia|]. split; [done|]. intros r t' Ht' _. by exists t'.
Qed.

Lemma evolves_core_trans events last ts events1 last1 ts1
    events2 last2 ts2 :
  evolves_core events last ts events1 last1 ts1 ->
  evolves_core events1 last1 ts1 events2 last2 ts2 ->
  evolves_core events last ts events2 last2 ts2.
Proof.
  intros (Hl1 & He1 & Ht1) (Hl2 & He2 & Ht2).
  split; [lia|]. split.
  - intros id Hid Hn. apply He2; [lia|]. by apply He1.
  - intros r t2 Hr Hslot.
    destruct (Ht2 r t2 Hr) as (t1 & Hr1 & Hs1 & Ha1); [lia|].
    destruct (Ht1 r t1 Hr1) as (t & Hr0 & Hs0 & Ha0); [lia|].
    exists t. split; [done|]. split; [congruence|]. auto.
Qed.

Lemma evolves_core_del events last ts id :
  evolves_core events last ts (dict_del id events) last ts.
Proof.
  split; [lia|]. split.
  - intros id' _. apply dict_get_del_None.
  - intros r t' Ht' _. by exists t'.
Qed.

Lemma evolves_core_stop events last ts timer :
  evolves_core events last ts events last (alter stopped timer ts).
Proof.
  split; [lia|]. split; [done|]. intros r t' Ht' _.
  apply lookup_alter_stopped in Ht' as (t & Ht & Hslot & Hne & Heq).
  exists t. split; [done|]. split; [done|]. intros Hact.
  destruct (decide (r = timer)) as [Hr|Hr].
  - rewrite (Heq Hr) in Hact. discriminate.
  - by rewrite <- (Hne Hr).
Qed.

Lemma evolves_core_schedule events last ts v interval :
  evolves_core events last ts (dict_set (last + 1) v events) (last + 1)
    (ts ++ [{| tm_interval := interval; tm_active := true;
               tm_slot := last + 1 |}]).
Proof.
  split; [lia|]. split.
  - intros id Hid Hn. rewrite dict_get_set_ne by lia. done.
  - intros r t'. rewrite lookup_snoc_Some.
    intros [[_ Ht] | [_ <-]]; simpl; [|lia]. intros _. by exists t'.
Qed.

Lemma evolves_core_burn events last ts :
  evolves_core events last ts events (last + 1)
    (ts ++ [{| tm_interval := 0; tm_active := false; tm_slot := last + 1 |}]).
Proof.
  split; [lia|]. split; [done|].
  intros r t'. rewrite lookup_snoc_Some.
  intros [[_ Ht] | [_ <-]]; simpl; [|lia]. intros _. by exists t'.
Qed.
End Evolves.

Lemma evolves_refl s : evolves s s.
Proof. apply evolves_core_refl. Qed.

Lemma evolves_trans s1 s2 s3 : evolves s1 s2 -> evolves s2 s3 -> evolves s1 s3.
Proof. apply evolves_core_trans. Qed.

Ltac evolves_same := unfold evolves; simpl; apply evolves_core_refl.

Lemma evolves_execute_action id s : evolves s (exec (execute_action id) s).
Proof.
  destruct (dict_get id (scheduled_events s)) as [[[r a] dt]|] eqn:E.
  - destruct (execute_action_present _ _ _ _ _ E) as (H1 & H2 & H3 & _).
    unfold evolves. rewrite H1, H2, H3. apply evolves_core_del.
  - unfold exec. rewrite execute_action_absent by done. evolves_same.
Qed.

Lemma evolves_cancel_event id user_triggered s :
  evolves s (exec (cancel_event id user_triggered) s).
Proof.
  destruct (dict_get id (scheduled_events s)) as [[[r a] dt]|] eqn:E.
  - destruct (cancel_event_present _ user_triggered _ _ _ _ E)
      as (H1 & H2 & H3 & _).
    unfold evolves. rewrite H1, H2, H3.
    eapply evolves_core_trans; [apply evolves_core_del|].
    apply evolves_core_stop.
  - unfold exec. rewrite cancel_event_absent by done. evolves_same.
Qed.

Lemma evolves_cancel_all_loop items s :
  evolves s (exec (cancel_all_loop items) s).
Proof.
  revert s. induction items as [|[id [[timer a] dt]] rest IH]; intros s.
  - evolves_same.
  - unfold exec. rewrite cancel_all_loop_cons. cbn zeta.
    set (s1 := with_scheduled_events _ _).
    assert (H1 : evolves s s1).
    { unfold evolves, s1. simpl.
      eapply evolves_core_trans; [apply evolves_core_del|].
      apply evolves_core_stop. }
    destruct (log_event_outcome (Fmt_canceled a dt false) s1)
      as [-> | [[lines ->] | ->]].
    + eapply evolves_trans; [exact H1 | apply IH].
    + eapply evolves_trans; [exact H1|].
      apply (IH (with_log_file (Some (lines ++ [Fmt_canceled a dt false])) s1)).
    + exact H1.
Qed.

Lemma evolves_schedule_action a scheduled_datetime current_time s :
  evolves s (exec (schedule_action a scheduled_datetime current_time) s).
Proof.
  destruct (schedule_action_cases scheduled_datetime current_time)
    as [H | [[H Hfit] | [H Hfit]]].
  - unfold exec. rewrite schedule_action_past by done. evolves_same.
  - destruct (schedule_action_future a _ _ s H Hfit)
      as (interval & H1 & H2 & H3 & _).
    unfold evolves. rewrite H1, H2, H3. apply evolves_core_schedule.
  - unfold exec. rewrite (schedule_action_overflow a _ _ s H Hfit).
    unfold evolves. simpl. apply evolves_core_burn.
Qed.

Lemma evolves_prepare_for_action id s :
  evolves s (exec (prepare_for_action id) s).
Proof.
  destruct (dict_get id (scheduled_events s)) as [[[r a] dt]|] eqn:E.
  - destruct (notifications_enable (settings s)) eqn:Hn.
    + unfold exec. rewrite (prepare_for_action_notify _ _ _ _ _ E Hn).
      evolves_same.
    + unfold exec. rewrite (prepare_for_action_direct _ _ _ E Hn).
      apply evolves_execute_action.
  - unfold exec. rewrite prepare_for_action_absent by done. evolves_same.
Qed.

Lemma evolves_dispatch e s : evolves s (dispatch e s).
Proof.
  unfold dispatch. destruct e; simpl.
  - apply evolves_schedule_action.
  - unfold cancel_all_scheduled_events, exec, bind at 1, gets at 1.
    destruct (scheduled_events s) as [|it items] eqn:E; [evolves_same|].
    unfold bind at 1.
    pose proof (evolves_cancel_all_loop (it :: items) s) as H.
    unfold exec in H.
    destruct (cancel_all_loop (it :: items) s) as [[[]|e] s']; exact H.
  - unfold exec, bind at 1, gets at 1.
    destruct (timers s !! timer) as [t|] eqn:Ht; [|evolves_same].
    destruct (tm_active t); [|evolves_same].
    unfold bind at 1, timer_stop, modify.
    eapply evolves_trans; [|apply evolves_prepare_for_action].
    unfold evolves. simpl. apply evolves_core_stop.
  - unfold exec, bind at 1, gets at 1.
    destruct (dialogs s !! dialog) as [d|]; [|evolves_same].
    destruct (close_timer_active d); evolves_same.
  - unfold exec, bind at 1, gets at 1.
    destruct (dialogs s !! dialog) as [d|]; [|evolves_same].
    destruct (dlg_visible d); evolves_same.
  - unfold exec, bind at 1, gets at 1.
    destruct (dialogs s !! dialog) as [d|]; [|evolves_same].
    destruct (dlg_visible d); evolves_same.
  - unfold exec, bind at 1, gets at 1.
    destruct (exec_stack s) as [|[id dialog] rest] eqn:Hst; [evolves_same|].
    unfold bind at 1, gets at 1.
    destruct (dialogs s !! dialog) as [d|] eqn:Hd; [|evolves_same].
    destruct (dlg_visible d); [evolves_same|].
    unfold bind at 1, modify.
    unfold prepare_for_action_resume, bind at 1, gets at 1.
    change (dialogs (with_exec_stack rest s)) with (dialogs s). rewrite Hd.
    eapply (evolves_trans _ (with_exec_stack rest s)); [evolves_same|].
    destruct (user_canceled d);
      [apply evolves_cancel_event | apply evolves_execute_action].
  - destruct (check_inactivity_frame probe s) as [tr Htr].
    unfold exec. rewrite Htr. evolves_same.
  - evolves_same.
  - evolves_same.
Qed.

Lemma evolves_run es s : evolves s (run es s).
Proof.
  revert s. induction es as [|e es IH]; intros s; [apply evolves_refl|].
  simpl. eapply evolves_trans; [apply evolves_dispatch | apply IH].
Qed.

Lemma retired_evolves id s s' : retired id s -> evolves s s' -> retired id s'.
Proof.
  intros (Hle & Hnone & Hoff) (Hl & He & Ht).
  split; [lia|]. split; [by apply He|].
  intros r t' Hr Hslot.
  destruct (Ht r t' Hr) as (t & Hr0 & Hs0 & Ha0); [lia|].
  destruct (tm_active t') eqn:Hact; [|done].
  assert (tm_active t = false) as Hf by (apply (Hoff r); congruence).
  rewrite Ha0 in Hf; done.
Qed.

(** ** The event states read off a reachable application *)

Lemma Inv_event_state s id ev :
  Inv s -> dict_get id (scheduled_events s) = Some ev ->
  event_state s id = Some Armed \/ event_state s id = Some PreNotifying.
Proof.
  intros (Hnd & He & Hb & Hs & Hf) E. destruct ev as [[timer a] dt].
  destruct (He _ _ _ _ E) as (_ & t & Ht & Hslot & Hin).
  unfold event_state. rewrite E, Ht. destruct (tm_active t) eqn:Hact.
  - left. rewrite bool_decide_eq_false_2; [done|]. intros Hid.
    destruct (Hf id Hid) as [_ Hoff].
    rewrite (Hoff timer t Ht Hslot) in Hact. discriminate.
  - right. rewrite bool_decide_eq_true_2; [done|]. by apply Hin.
Qed.

Lemma event_state_Armed s id timer a dt :
  dict_get id (scheduled_events s) = Some (timer, a, dt) ->
  event_state s id = Some Armed ->
  exists t, timers s !! timer = Some t /\ tm_active t = true.
Proof.
  intros E. unfold event_state. rewrite E.
  destruct (timers s !! timer) as [t|]; [|done].
  destruct (tm_active t) eqn:Hact; [intros _; by exists t|].
  by destruct (bool_decide _).
Qed.

Lemma timer_timeout_active timer t s :
  timers s !! timer = Some t -> tm_active t = true ->
  dispatch (Timer_timeout timer) s =
  exec (prepare_for_action (tm_slot t))
    (with_timers (alter stopped timer (timers s)) s).
Proof.
  intros Ht Hact. unfold dispatch. simpl.
  unfold exec, bind at 1, gets at 1. rewrite Ht, Hact. reflexivity.
Qed.

Lemma timer_timeout_inactive timer t s :
  timers s !! timer = Some t -> tm_active t = false ->
  dispatch (Timer_timeout timer) s = s.
Proof.
  intros Ht Hact. unfold dispatch. simpl.
  unfold exec, bind at 1, gets at 1. by rewrite Ht, Hact.
Qed.

(** * The claims *)

(** C1. When the countdown of an armed event elapses while pre-notification
    is disabled, the scheduler hands exactly one command to the action
    executor, the command of the event's action type, and the entry of the
    event leaves the registry in the same step: Armed to Executed, with no
    pre-notification frame opened. *)
Theorem countdown_elapses_notify_off s id timer a dt :
  reachable s ->
  dict_get id (scheduled_events s) = Some (timer, a, dt) ->
  event_state s id = Some Armed ->
  notifications_enable (settings s) = false ->
  let s' := dispatch (Timer_timeout timer) s in
  performs (trace s') = performs (trace s) ++ [system_command (on_windows s) a]
  /\ scheduled_events s' = dict_del id (scheduled_events s)
  /\ dict_get id (scheduled_events s') = None
  /\ event_state s' id = None
  /\ exec_stack s' = exec_stack s.
Proof.
  intros Hreach E Harmed Hoff. apply reachable_Inv in Hreach as HI.
  destruct (event_state_Armed _ _ _ _ _ E Harmed) as (t & Ht & Hact).
  pose proof (Inv_core_event_slot _ _ _ _ _ _ _ _ _ HI E Ht) as Hslot.
  cbn zeta. rewrite (timer_timeout_active _ _ _ Ht Hact), Hslot.
  set (s1 := with_timers _ s).
  assert (E1 : dict_get id (scheduled_events s1) = Some (timer, a, dt)) by done.
  unfold exec. rewrite (prepare_for_action_direct _ _ _ E1 Hoff).
  destruct (execute_action_present _ _ _ _ _ E1)
    as (H1 & H2 & H3 & H4 & H5 & H6 & H7 & H8).
  unfold exec in *.
  assert (Hgone : dict_get id (scheduled_events (execute_action id s1).2) = None).
  { rewrite H1. apply dict_get_del_eq, HI. }
  split; [exact H8|]. split; [exact H1|]. split; [exact Hgone|].
  split; [|exact H4]. unfold event_state. by rewrite Hgone.
Qed.

Lemma countdown_elapses_notify_off_witness :
  let s' := dispatch (Timer_timeout 0%nat) one_shutdown in
  performs (trace s') =
    performs (trace one_shutdown) ++ [system_command false shutdown]
  /\ scheduled_events s' = dict_del 1 (scheduled_events one_shutdown)
  /\ dict_get 1 (scheduled_events s') = None
  /\ event_state s' 1 = None
  /\ exec_stack s' = exec_stack one_shutdown.
Proof.
  apply (countdown_elapses_notify_off one_shutdown 1 0%nat shutdown 5000).
  - apply reachable_run, reachable_init.
  - reflexivity.
  - reflexivity.
  - reflexivity.
Defined.

(** C2. A schedule request whose time is not strictly in the future is
    refused: the user is told that the selected time is in the past, and
    nothing else changes; in particular the scheduled events, the id
    counter and the timers are what they were. *)
Theorem schedule_in_the_past_refused a scheduled_datetime current_time s :
  scheduled_datetime <= current_time ->
  let s' := exec (schedule_action a scheduled_datetime current_time) s in
  s' = with_info_label
         (Lit "The selected time is in the past. Please choose a future time.")
         s
  /\ result_of (schedule_action a scheduled_datetime current_time) s
     = Return tt
  /\ scheduled_events s' = scheduled_events s
  /\ last_timer_id s' = last_timer_id s
  /\ timers s' = timers s
  /\ trace s' = trace s.
Proof.
  intros H. unfold exec, result_of.
  rewrite (schedule_action_past a _ _ s H). by repeat split.
Qed.

Lemma schedule_in_the_past_refused_witness :
  let s' := exec (schedule_action restart 1000 1000) one_shutdown in
  s' = with_info_label
         (Lit "The selected time is in the past. Please choose a future time.")
         one_shutdown
  /\ result_of (schedule_action restart 1000 1000) one_shutdown = Return tt
  /\ scheduled_events s' = scheduled_events one_shutdown
  /\ last_timer_id s' = last_timer_id one_shutdown
  /\ timers s' = timers one_shutdown
  /\ trace s' = trace one_shutdown.
Proof.
  apply (schedule_in_the_past_refused restart 1000 1000 one_shutdown). lia.
Defined.

(** C10. A poll of the inactivity watchdog, whether or not it triggers the
    auto-sleep, leaves the registry of scheduled events and the id counter
    exactly as they were (and with them the timers and the suspended
    pre-notifications): it can only add to the trace of effects. *)
Theorem inactivity_poll_frame probe s :
  let s' := dispatch (Inactivity_timeout probe) s in
  scheduled_events s' = scheduled_events s
  /\ last_timer_id s' = last_timer_id s
  /\ timers s' = timers s
  /\ exec_stack s' = exec_stack s
  /\ exists tr, s' = with_trace tr s.
Proof.
  unfold dispatch, exec. simpl.
  destruct (check_inactivity_frame probe s) as [tr ->]. simpl.
  repeat split. by exists tr.
Qed.

(** C8. In every reachable state no id occurs twice in the registry, and
    every id of the registry maps to an event that is Armed (its timer
    runs, no pre-notification waits for it) or PreNotifying (its timer has
    fired and a pre-notification waits for it). An event that is executed
    or canceled is removed by the very call that executes or cancels it. *)
Theorem registry_invariant s :
  reachable s ->
  NoDup (dict_keys (scheduled_events s))
  /\ (forall id ev,
        dict_get id (scheduled_events s) = Some ev ->
        event_state s id = Some Armed \/ event_state s id = Some PreNotifying)
  /\ (forall id,
        dict_get id (scheduled_events (exec (execute_action id) s)) = None)
  /\ (forall id user_triggered,
        dict_get id
          (scheduled_events (exec (cancel_event id user_triggered) s)) = None).
Proof.
  intros Hreach. apply reachable_Inv in Hreach as HI.
  assert (Hnd : NoDup (dict_keys (scheduled_events s))) by apply HI.
  split; [done|]. split; [intros id ev; by apply Inv_event_state|]. split.
  - intros id.
    destruct (dict_get id (scheduled_events s)) as [[[r a] dt]|] eqn:E.
    + destruct (execute_action_present _ _ _ _ _ E) as (-> & _).
      by apply dict_get_del_eq.
    + unfold exec. by rewrite execute_action_absent.
  - intros id user_triggered.
    destruct (dict_get id (scheduled_events s)) as [[[r a] dt]|] eqn:E.
    + destruct (cancel_event_present _ user_triggered _ _ _ _ E) as (-> & _).
      by apply dict_get_del_eq.
    + unfold exec. by rewrite cancel_event_absent.
Qed.

Lemma registry_invariant_witness :
  NoDup (dict_keys (scheduled_events two_events))
  /\ (forall id ev,
        dict_get id (scheduled_events two_events) = Some ev ->
        event_state two_events id = Some Armed
        \/ event_state two_events id = Some PreNotifying)
  /\ (forall id,
        dict_get id (scheduled_events (exec (execute_action id) two_events))
        = None)
  /\ (forall id user_triggered,
        dict_get id
          (scheduled_events (exec (cancel_event id user_triggered) two_events))
        = None).
Proof.
  apply (registry_invariant two_events). apply reachable_run, reachable_init.
Defined.

(** C9. Ids are unique and strictly increasing. Take any reachable state
    and let the application run on through any events. A schedule request
    for a future time then takes the id one above the counter; that id is
    greater than the counter of the earlier state, hence than every id
    assigned up to then, whether its event is still registered or was
    executed or canceled, and it is free at that moment. Where
    [timer.start] accepts the delay the event is registered under that id
    and the registry keeps distinct ids; where it raises, nothing is
    registered and the id is given up, the counter having moved all the
    same, so that it is not assigned again either. *)
Theorem ids_strictly_increasing s es a scheduled_datetime current_time :
  reachable s ->
  current_time < scheduled_datetime ->
  let s1 := run es s in
  let s2 := exec (schedule_action a scheduled_datetime current_time) s1 in
  let new_id := last_timer_id s2 in
  new_id = last_timer_id s1 + 1
  /\ last_timer_id s < new_id
  /\ (forall id, id ∈ dict_keys (scheduled_events s) -> id < new_id)
  /\ (forall id, id ∈ dict_keys (scheduled_events s1) -> id < new_id)
  /\ dict_get new_id (scheduled_events s1) = None
  /\ NoDup (dict_keys (scheduled_events s2))
  /\ (c_int (interval_msec scheduled_datetime current_time) = true ->
      exists timer,
        dict_get new_id (scheduled_events s2)
        = Some (timer, a, scheduled_datetime))
  /\ (c_int (interval_msec scheduled_datetime current_time) = false ->
      result_of (schedule_action a scheduled_datetime current_time) s1
      = Raise OverflowError
      /\ scheduled_events s2 = scheduled_events s1).
Proof.
  intros Hreach Hfut. cbn zeta.
  assert (Hkeys : forall s0, Inv s0 -> forall id,
            id ∈ dict_keys (scheduled_events s0) -> id <= last_timer_id s0).
  { intros s0 (_ & He & _) id Hid.
    destruct (dict_get id (scheduled_events s0)) as [[[r a'] dt']|] eqn:E.
    - by apply (He _ _ _ _ E).
    - by apply dict_get_None in E. }
  pose proof (reachable_Inv _ Hreach) as HI.
  pose proof (reachable_Inv _ (reachable_run es s Hreach)) as HI1.
  pose proof (evolves_run es s) as (Hmono & _).
  pose proof (Inv_schedule_action a scheduled_datetime current_time _ HI1)
    as HI2.
  assert (Hlast : last_timer_id
            (exec (schedule_action a scheduled_datetime current_time)
               (run es s)) = last_timer_id (run es s) + 1).
  { destruct (c_int (interval_msec scheduled_datetime current_time)) eqn:Hfit.
    - by destruct (schedule_action_future a _ _ (run es s) Hfut Hfit)
        as (interval & _ & H2 & _).
    - unfold exec. by rewrite (schedule_action_overflow a _ _ _ Hfut Hfit). }
  rewrite Hlast.
  split; [done|]. split; [lia|]. split.
  { intros id Hid. apply (Hkeys s HI) in Hid. lia. }
  split.
  { intros id Hid. apply (Hkeys _ HI1) in Hid. lia. }
  split; [apply dict_get_None; intros Hid; apply (Hkeys _ HI1) in Hid; lia|].
  split; [apply HI2|]. split.
  - intros Hfit.
    destruct (schedule_action_future a _ _ (run es s) Hfut Hfit)
      as (interval & H1 & _).
    exists (length (timers (run es s))). rewrite H1. apply dict_get_set_eq.
  - intros Hfit. unfold exec, result_of.
    by rewrite (schedule_action_overflow a _ _ _ Hfut Hfit).
Qed.

Lemma ids_strictly_increasing_witness :
  let s1 := run [Click_cancel_all] two_events in
  let s2 := exec (schedule_action sleep 9000 100) s1 in
  let new_id := last_timer_id s2 in
  new_id = last_timer_id s1 + 1
  /\ last_timer_id two_events < new_id
  /\ (forall id, id ∈ dict_keys (scheduled_events two_events) -> id < new_id)
  /\ (forall id, id ∈ dict_keys (scheduled_events s1) -> id < new_id)
  /\ dict_get new_id (scheduled_events s1) = None
  /\ NoDup (dict_keys (scheduled_events s2))
  /\ (c_int (interval_msec 9000 100) = true ->
      exists timer,
        dict_get new_id (scheduled_events s2) = Some (timer, sleep, 9000))
  /\ (c_int (interval_msec 9000 100) = false ->
      result_of (schedule_action sleep 9000 100) s1 = Raise OverflowError
      /\ scheduled_events s2 = scheduled_events s1).
Proof.
  apply (ids_strictly_increasing two_events [Click_cancel_all] sleep 9000 100).
  - apply reachable_run, reachable_init.
  - lia.
Defined.

Lemma close_timer_timeout_frame dialog s :
  exists ds, dispatch (Close_timer_timeout dialog) s = with_dialogs ds s.
Proof.
  assert (Hs : s = with_dialogs (dialogs s) s) by (by destruct s).
  unfold dispatch. simpl. unfold exec, bind at 1, gets at 1.
  destruct (dialogs s !! dialog) as [d|]; [|by exists (dialogs s)].
  destruct (close_timer_active d); [by eexists | by exists (dialogs s)].
Qed.

(** C4 as the specification states it fails for an event that is
    PreNotifying. Its pending countdown is the one-second timer of its
    dialog, and no cancel stops that timer: after [reject()] and the
    [cancel_event] that follows it, and just as well after cancel-all, the
    event is gone from the registry and the timer of the dialog still
    runs. *)
Lemma cancel_leaves_dialog_countdown :
  event_state restart_pre_notifying 1 = Some PreNotifying
  /\ (let s' := run [Close_requested 0%nat; Exec_returns]
                  restart_pre_notifying in
      dict_get 1 (scheduled_events s') = None
      /\ info_label s' = Fmt_canceled restart 2000 true
      /\ ~ countdowns_stopped s' 1 0)
  /\ (let s' := run [Click_cancel_all] restart_pre_notifying in
      dict_get 1 (scheduled_events s') = None
      /\ ~ countdowns_stopped s' 1 0).
Proof.
  assert (Hrun : forall s' : SchedulerApp,
            (exists d, dialogs s' !! 0%nat = Some d
                       /\ close_timer_active d = true) ->
            ~ countdowns_stopped s' 1 0).
  { intros s' (d & Hd & Hact) [_ H]. rewrite (H d Hd) in Hact.
    discriminate Hact. }
  split; [by vm_compute|]. split.
  - split; [by vm_compute|]. split; [by vm_compute|].
    apply Hrun. vm_compute. eauto.
  - split; [by vm_compute|]. apply Hrun. vm_compute. eauto.
Qed.

(** C4, amended. Canceling a registered event (Armed or PreNotifying)
    removes it from the registry, leaves its own timer stopped (for a
    PreNotifying event it had fired already) and performs no action; the
    dialogs, and with them the one-second timer of a pre-notification, are
    left as they are. From then on, whatever events follow, the id never
    comes back, its timer never fires again, every callback that may still
    run for the id (a late countdown calling [prepare_for_action], a
    pre-notification returning into [execute_action] or [cancel_event])
    returns at once, changing nothing and performing no action, and a tick
    of a dialog timer changes dialogs only. *)
Theorem cancel_is_final s id timer a dt user_triggered :
  reachable s ->
  dict_get id (scheduled_events s) = Some (timer, a, dt) ->
  let s1 := exec (cancel_event id user_triggered) s in
  dict_get id (scheduled_events s1) = None
  /\ (exists t, timers s1 !! timer = Some t /\ tm_active t = false)
  /\ dialogs s1 = dialogs s
  /\ performs (trace s1) = performs (trace s)
  /\ forall es,
       let s2 := run es s1 in
       dict_get id (scheduled_events s2) = None
       /\ (forall r t, timers s2 !! r = Some t -> tm_slot t = id ->
             tm_active t = false /\ dispatch (Timer_timeout r) s2 = s2)
       /\ prepare_for_action id s2 = (Return tt, s2)
       /\ execute_action id s2 = (Return tt, s2)
       /\ (forall dialog,
             prepare_for_action_resume id dialog s2 = (Return tt, s2))
       /\ (forall dialog, exists ds,
             dispatch (Close_timer_timeout dialog) s2 = with_dialogs ds s2).
Proof.
  intros Hreach E. apply reachable_Inv in Hreach as HI. cbn zeta.
  destruct (cancel_event_present _ user_triggered _ _ _ _ E)
    as (H1 & H2 & H3 & H4 & H5 & H6 & H7 & H8).
  destruct HI as (Hnd & He & Hb & Hs & Hf).
  destruct (He _ _ _ _ E) as (Hle & t & Ht & Hslot & _).
  assert (Hgone : dict_get id
            (scheduled_events (exec (cancel_event id user_triggered) s)) = None).
  { rewrite H1. by apply dict_get_del_eq. }
  assert (Hret : retired id (exec (cancel_event id user_triggered) s)).
  { split; [by rewrite H2|]. split; [done|]. intros r t' Hr Hsl.
    rewrite H3 in Hr.
    apply lookup_alter_stopped in Hr as (t0 & Hr0 & Hs0 & _ & Heq).
    apply Heq. apply (timer_of_slot_unique (timers s) r timer t0 t); try done.
    congruence. }
  split; [done|]. split.
  - exists (stopped t). by rewrite H3, list_lookup_alter_eq, Ht.
  - split; [done|]. split; [done|]. intros es.
    pose proof (retired_evolves _ _ _ Hret (evolves_run es _))
      as (_ & Hnone & Hoff).
    split; [done|]. split.
    + intros r t' Hr Hsl. split; [by apply (Hoff r)|].
      apply (timer_timeout_inactive r t'); [done | by apply (Hoff r)].
    + split; [by apply prepare_for_action_absent|].
      split; [by apply execute_action_absent|].
      split; [|intros dialog; apply close_timer_timeout_frame].
      intros dialog. unfold prepare_for_action_resume, bind at 1, gets at 1.
      destruct (dialogs _ !! dialog) as [d|]; [|done].
      destruct (user_canceled d);
        [by apply cancel_event_absent | by apply execute_action_absent].
Qed.

Lemma cancel_is_final_witness :
  let s1 := exec (cancel_event 1 false) one_restart_notify in
  dict_get 1 (scheduled_events s1) = None
  /\ (exists t, timers s1 !! 0%nat = Some t /\ tm_active t = false)
  /\ dialogs s1 = dialogs one_restart_notify
  /\ performs (trace s1) = performs (trace one_restart_notify)
  /\ forall es,
       let s2 := run es s1 in
       dict_get 1 (scheduled_events s2) = None
       /\ (forall r t, timers s2 !! r = Some t -> tm_slot t = 1 ->
             tm_active t = false /\ dispatch (Timer_timeout r) s2 = s2)
       /\ prepare_for_action 1 s2 = (Return tt, s2)
       /\ execute_action 1 s2 = (Return tt, s2)
       /\ (forall dialog,
             prepare_for_action_resume 1 dialog s2 = (Return tt, s2))
       /\ (forall dialog, exists ds,
             dispatch (Close_timer_timeout dialog) s2 = with_dialogs ds s2).
Proof.
  apply (cancel_is_final one_restart_notify 1 0%nat restart 2000 false).
  - apply reachable_run, reachable_init.
  - reflexivity.
Defined.

(** ** The pre-notification dialog *)

Lemma alter_last {A} (f : A -> A) (l : list A) d :
  alter f (length l) (l ++ [d]) = l ++ [f d].
Proof. induction l as [|x l IH]; simpl; [done|]. f_equal. apply IH. Qed.

Lemma on_timeout_iter k d :
  Z.of_nat k < remaining_time d ->
  let d' := Nat.iter k on_timeout d in
  remaining_time d' = remaining_time d - Z.of_nat k
  /\ close_timer_active d' = close_timer_active d
  /\ user_canceled d' = user_canceled d
  /\ dlg_visible d' = dlg_visible d
  /\ dlg_action_type d' = dlg_action_type d.
Proof.
  induction k as [|k IH]; intros Hk; cbn zeta.
  - simpl. repeat split. lia.
  - destruct IH as (Hr & Hc & Hu & Hv & Ha); [lia|].
    simpl. unfold on_timeout at 1 3 5 7 9. rewrite Hr.
    destruct (Z.leb_spec (remaining_time d - Z.of_nat k - 1) 0); [lia|].
    simpl. repeat split; try done. lia.
Qed.

Lemma on_timeout_last d :
  remaining_time d = 1 ->
  dlg_visible (on_timeout d) = false
  /\ user_canceled (on_timeout d) = user_canceled d
  /\ close_timer_active (on_timeout d) = false.
Proof. intros H. unfold on_timeout. rewrite H. simpl. done. Qed.

Lemma ticks_open k ds d s :
  dialogs s = ds ++ [d] -> close_timer_active d = true ->
  Z.of_nat k <= remaining_time d ->
  ticks k (length ds) s = with_dialogs (ds ++ [Nat.iter k on_timeout d]) s.
Proof.
  intros Hd Hact. induction k as [|k IH]; intros Hk.
  - simpl. rewrite <- Hd. by destruct s.
  - unfold ticks in *. simpl. rewrite IH by lia.
    destruct (on_timeout_iter k d) as (_ & Hc & _); [lia|].
    unfold dispatch. simpl. unfold exec, bind at 1, gets at 1. simpl.
    rewrite list_lookup_middle by done. rewrite Hc, Hact.
    unfold modify. simpl. by rewrite alter_last.
Qed.

Lemma exec_returns_open s id dialog rest d :
  exec_stack s = (id, dialog) :: rest -> dialogs s !! dialog = Some d ->
  dlg_visible d = true ->
  dispatch Exec_returns s = s.
Proof.
  intros Hst Hd Hv. unfold dispatch. simpl.
  unfold exec, bind at 1, gets at 1. rewrite Hst.
  unfold bind at 1, gets at 1. by rewrite Hd, Hv.
Qed.

Lemma exec_returns_closed s id dialog rest d :
  exec_stack s = (id, dialog) :: rest -> dialogs s !! dialog = Some d ->
  dlg_visible d = false ->
  dispatch Exec_returns s =
  exec (if user_canceled d then cancel_event id true else execute_action id)
    (with_exec_stack rest s).
Proof.
  intros Hst Hd Hv. unfold dispatch. simpl.
  unfold exec, bind at 1, gets at 1. rewrite Hst.
  unfold bind at 1, gets at 1. rewrite Hd, Hv.
  unfold bind at 1, modify.
  unfold prepare_for_action_resume, bind at 1, gets at 1.
  change (dialogs (with_exec_stack rest s)) with (dialogs s). by rewrite Hd.
Qed.

Lemma cancel_this_action_open s dialog d :
  dialogs s !! dialog = Some d -> dlg_visible d = true ->
  dispatch (Click_cancel_this_action dialog) s =
  with_dialogs (alter dialog_done dialog (dialogs s)) s.
Proof.
  intros Hd Hv. unfold dispatch. simpl.
  unfold exec, bind at 1, gets at 1. by rewrite Hd, Hv.
Qed.

Lemma close_requested_open s dialog d :
  dialogs s !! dialog = Some d -> dlg_visible d = true ->
  dispatch (Close_requested dialog) s =
  with_dialogs (alter reject dialog (dialogs s)) s.
Proof.
  intros Hd Hv. unfold dispatch. simpl.
  unfold exec, bind at 1, gets at 1. by rewrite Hd, Hv.
Qed.

Lemma event_state_pre_notifying s id timer a dt t :
  dict_get id (scheduled_events s) = Some (timer, a, dt) ->
  timers s !! timer = Some t -> tm_active t = false ->
  id ∈ (exec_stack s).*1 ->
  event_state s id = Some PreNotifying.
Proof.
  intros E Ht Hoff Hin. unfold event_state. rewrite E, Ht, Hoff.
  by rewrite bool_decide_eq_true_2.
Qed.

Lemma event_state_absent s id :
  dict_get id (scheduled_events s) = None -> event_state s id = None.
Proof. intros E. unfold event_state. by rewrite E. Qed.

(** C3. When the countdown of an armed event elapses while pre-notification
    is enabled with a lead time of [n >= 1] seconds, the event becomes
    PreNotifying and nothing is executed. Where nothing but the ticks of
    its dialog happens meanwhile, it stays so, unexecuted, through the
    first [n - 1] ticks; after the [n]-th tick the dialog closes, [exec_()]
    returns and exactly one command, that of the event's action type, is
    handed to the action executor, the event leaving the registry. If
    [reject()] is called on the dialog after any [k < n] ticks, the event
    is canceled: it leaves the registry and no command is executed. But a
    click on "Cancel this Action" does not call [reject()]: the dialog
    closes with [user_canceled] still false, and when [exec_()] returns the
    action is executed. Last, [exec_()] returns innermost first: while a
    dialog opened later is on screen, no earlier pre-notification returns,
    whatever its own countdown says. *)
Theorem pre_notification_protocol s id timer a dt :
  reachable s ->
  dict_get id (scheduled_events s) = Some (timer, a, dt) ->
  event_state s id = Some Armed ->
  notifications_enable (settings s) = true ->
  1 <= notifications_seconds_before (settings s) ->
  let n := Z.to_nat (notifications_seconds_before (settings s)) in
  let dialog := length (dialogs s) in
  let s1 := dispatch (Timer_timeout timer) s in
  (event_state s1 id = Some PreNotifying
   /\ performs (trace s1) = performs (trace s))
  /\ (forall k, (k < n)%nat ->
        let sk := ticks k dialog s1 in
        event_state sk id = Some PreNotifying
        /\ performs (trace sk) = performs (trace s)
        /\ dispatch Exec_returns sk = sk)
  /\ (let s2 := dispatch Exec_returns (ticks n dialog s1) in
      performs (trace s2) =
        performs (trace s) ++ [system_command (on_windows s) a]
      /\ dict_get id (scheduled_events s2) = None
      /\ event_state s2 id = None)
  /\ (forall k, (k < n)%nat ->
        let s3 := dispatch Exec_returns
                    (dispatch (Close_requested dialog)
                       (ticks k dialog s1)) in
        performs (trace s3) = performs (trace s)
        /\ dict_get id (scheduled_events s3) = None
        /\ event_state s3 id = None)
  /\ (forall k, (k < n)%nat ->
        let sc := dispatch (Click_cancel_this_action dialog)
                    (ticks k dialog s1) in
        let s4 := dispatch Exec_returns sc in
        (exists d, dialogs sc !! dialog = Some d
                   /\ dlg_visible d = false /\ user_canceled d = false)
        /\ performs (trace s4) =
             performs (trace s) ++ [system_command (on_windows s) a]
        /\ dict_get id (scheduled_events s4) = None)
  /\ (forall s' id' dialog' rest d',
        exec_stack s' = (id', dialog') :: rest ->
        dialogs s' !! dialog' = Some d' -> dlg_visible d' = true ->
        dispatch Exec_returns s' = s').
Proof.
  intros Hreach E Harmed Hon Hlead. apply reachable_Inv in Hreach as HI.
  destruct (event_state_Armed _ _ _ _ _ E Harmed) as (t & Ht & Hact).
  pose proof (Inv_core_event_slot _ _ _ _ _ _ _ _ _ HI E Ht) as Hslot.
  assert (Hnd : NoDup (dict_keys (scheduled_events s))) by apply HI.
  set (secs := notifications_seconds_before (settings s)) in *.
  set (d0 := {| dlg_action_type := a; dlg_timeout := secs;
                dlg_text := Fmt_dialog a secs; close_timer_active := true;
                remaining_time := secs; user_canceled := false;
                dlg_visible := true |}).
  set (s1 := with_exec_stack ((id, length (dialogs s)) :: exec_stack s)
     (with_dialogs (dialogs s ++ [d0])
        (with_trace
           (trace s ++ [ShowMessage (Lit "Action About to Happen")
                          (Fmt_about_to_happen a secs) Warning 5000])
           (with_timers (alter stopped timer (timers s)) s)))).
  assert (Hs1 : dispatch (Timer_timeout timer) s = s1).
  { rewrite (timer_timeout_active _ _ _ Ht Hact), Hslot. unfold exec.
    by rewrite (prepare_for_action_notify _ _ timer a dt). }
  cbn zeta. rewrite Hs1.
  assert (Htr1 : performs (trace s1) = performs (trace s)).
  { unfold s1. simpl. rewrite performs_app. simpl. apply app_nil_r. }
  assert (Hticks : forall k, (k <= Z.to_nat secs)%nat ->
            ticks k (length (dialogs s)) s1 =
            with_dialogs (dialogs s ++ [Nat.iter k on_timeout d0]) s1).
  { intros k Hk. apply ticks_open; [done | done | simpl; lia]. }
  assert (Hpre : forall ds, event_state (with_dialogs ds s1) id
                            = Some PreNotifying).
  { intros ds. apply (event_state_pre_notifying _ _ timer a dt (stopped t)).
    - exact E.
    - simpl. by rewrite list_lookup_alter_eq, Ht.
    - done.
    - simpl. apply elem_of_cons. by left. }
  assert (Hexecuted : forall ds,
            let s' := with_exec_stack (exec_stack s) (with_dialogs ds s1) in
            performs (trace (exec (execute_action id) s')) =
              performs (trace s) ++ [system_command (on_windows s) a]
            /\ dict_get id (scheduled_events (exec (execute_action id) s'))
               = None).
  { intros ds s'.
    assert (E' : dict_get id (scheduled_events s') = Some (timer, a, dt))
      by exact E.
    destruct (execute_action_present _ _ _ _ _ E')
      as (H1 & _ & _ & _ & _ & _ & _ & H8).
    split; [rewrite H8; by rewrite <- Htr1|].
    rewrite H1. by apply dict_get_del_eq. }
  split; [|split; [|split; [|split; [|split]]]].
  - split; [|done]. assert (s1 = with_dialogs (dialogs s1) s1) as -> by done.
    apply Hpre.
  - intros k Hk. rewrite Hticks by lia.
    destruct (on_timeout_iter k d0) as (_ & _ & _ & Hv & _); [simpl; lia|].
    split; [apply Hpre|]. split; [done|].
    apply (exec_returns_open _ id (length (dialogs s)) (exec_stack s)
             (Nat.iter k on_timeout d0)); [done | | done].
    simpl. by apply list_lookup_middle.
  - rewrite Hticks by lia.
    destruct (Z.to_nat secs) as [|m] eqn:Hm; [lia|].
    destruct (on_timeout_iter m d0) as (Hr & _ & Hu & _); [simpl; lia|].
    destruct (on_timeout_last (Nat.iter m on_timeout d0))
      as (Hv' & Hu' & _); [rewrite Hr; simpl; lia|].
    rewrite (exec_returns_closed _ id (length (dialogs s)) (exec_stack s)
               (Nat.iter (S m) on_timeout d0));
      [| done | simpl; by apply list_lookup_middle | exact Hv'].
    simpl Nat.iter. rewrite Hu', Hu. simpl user_canceled.
    destruct (Hexecuted (dialogs s ++ [on_timeout (Nat.iter m on_timeout d0)]))
      as [Hp Hgone].
    split; [exact Hp|]. split; [exact Hgone | by apply event_state_absent].
  - intros k Hk. rewrite Hticks by lia.
    destruct (on_timeout_iter k d0) as (_ & _ & Hu & Hv & _); [simpl; lia|].
    rewrite (close_requested_open _ _ (Nat.iter k on_timeout d0));
      [| simpl; by apply list_lookup_middle | done].
    simpl dialogs. rewrite alter_last.
    rewrite (exec_returns_closed _ id (length (dialogs s)) (exec_stack s)
               (reject (Nat.iter k on_timeout d0)));
      [| done | simpl; by apply list_lookup_middle | done].
    simpl user_canceled.
    set (s' := with_exec_stack _ _).
    assert (E' : dict_get id (scheduled_events s') = Some (timer, a, dt))
      by exact E.
    destruct (cancel_event_present _ true _ _ _ _ E')
      as (H1 & _ & _ & _ & _ & _ & _ & H8).
    assert (Hgone : dict_get id
              (scheduled_events (exec (cancel_event id true) s')) = None).
    { rewrite H1. by apply dict_get_del_eq. }
    split; [|split; [done | by apply event_state_absent]].
    rewrite H8. by rewrite <- Htr1.
  - intros k Hk. rewrite Hticks by lia.
    destruct (on_timeout_iter k d0) as (_ & _ & Hu & Hv & _); [simpl; lia|].
    rewrite (cancel_this_action_open _ _ (Nat.iter k on_timeout d0));
      [| simpl; by apply list_lookup_middle | done].
    simpl dialogs. rewrite alter_last. split.
    + exists (dialog_done (Nat.iter k on_timeout d0)).
      split; [by apply list_lookup_middle|]. split; [done|].
      simpl. by rewrite Hu.
    + rewrite (exec_returns_closed _ id (length (dialogs s)) (exec_stack s)
                 (dialog_done (Nat.iter k on_timeout d0)));
        [| done | simpl; by apply list_lookup_middle | done].
      simpl user_canceled. rewrite Hu. simpl user_canceled.
      apply (Hexecuted
               (dialogs s ++ [dialog_done (Nat.iter k on_timeout d0)])).
  - intros s' id' dialog' rest d'. apply exec_returns_open.
Qed.

Lemma pre_notification_protocol_witness :
  let s1 := dispatch (Timer_timeout 0%nat) one_restart_notify in
  (event_state s1 1 = Some PreNotifying
   /\ performs (trace s1) = performs (trace one_restart_notify))
  /\ (forall k, (k < 5)%nat ->
        let sk := ticks k 0 s1 in
        event_state sk 1 = Some PreNotifying
        /\ performs (trace sk) = performs (trace one_restart_notify)
        /\ dispatch Exec_returns sk = sk)
  /\ (let s2 := dispatch Exec_returns (ticks 5 0 s1) in
      performs (trace s2) =
        performs (trace one_restart_notify) ++ [system_command false restart]
      /\ dict_get 1 (scheduled_events s2) = None
      /\ event_state s2 1 = None)
  /\ (forall k, (k < 5)%nat ->
        let s3 := dispatch Exec_returns
                    (dispatch (Close_requested 0%nat) (ticks k 0 s1)) in
        performs (trace s3) = performs (trace one_restart_notify)
        /\ dict_get 1 (scheduled_events s3) = None
        /\ event_state s3 1 = None)
  /\ (forall k, (k < 5)%nat ->
        let sc := dispatch (Click_cancel_this_action 0%nat) (ticks k 0 s1) in
        let s4 := dispatch Exec_returns sc in
        (exists d, dialogs sc !! 0%nat = Some d
                   /\ dlg_visible d = false /\ user_canceled d = false)
        /\ performs (trace s4) =
             performs (trace one_restart_notify)
             ++ [system_command false restart]
        /\ dict_get 1 (scheduled_events s4) = None)
  /\ (forall s' id' dialog' rest d',
        exec_stack s' = (id', dialog') :: rest ->
        dialogs s' !! dialog' = Some d' -> dlg_visible d' = true ->
        dispatch Exec_returns s' = s').
Proof.
  apply (pre_notification_protocol one_restart_notify 1 0%nat restart 2000).
  - apply reachable_run, reachable_init.
  - reflexivity.
  - reflexivity.
  - reflexivity.
  - vm_compute. by intros.
Defined.

(** C5 as the specification states it fails: with auto-sleep after one
    minute, pre-notification enabled and 61 seconds of idle time, the poll
    puts the machine to sleep at once; no countdown that could be canceled
    is shown. *)
Lemma auto_sleep_not_funnelled :
  auto_sleep_enable (settings idle_machine) = true
  /\ Qle (inject_Z (auto_sleep_timeout_minutes (settings idle_machine) * 60))
         (get_system_idle_time_seconds (Some 61000))
  /\ ~ auto_sleep_funnelled (Some 61000) idle_machine.
Proof.
  split; [reflexivity|]. split.
  - unfold Qle. simpl. lia.
  - unfold auto_sleep_funnelled. simpl. intros [H _]. discriminate H.
Qed.

(** C5, amended. Whenever auto-sleep is enabled and the idle time is at
    least the timeout, the poll calls the action executor for a sleep
    directly and at once, whatever the pre-notification setting: no event is
    registered, no id is assigned, no timer is armed and no pre-notification
    is shown. *)
Theorem auto_sleep_is_immediate probe s :
  auto_sleep_enable (settings s) = true ->
  Qle (inject_Z (auto_sleep_timeout_minutes (settings s) * 60))
      (get_system_idle_time_seconds probe) ->
  let s' := dispatch (Inactivity_timeout probe) s in
  s' = with_trace (trace s ++ [OsSystem (system_command (on_windows s) sleep)])
         s
  /\ performs (trace s') =
     performs (trace s) ++ [system_command (on_windows s) sleep]
  /\ scheduled_events s' = scheduled_events s
  /\ last_timer_id s' = last_timer_id s
  /\ exec_stack s' = exec_stack s
  /\ dialogs s' = dialogs s.
Proof.
  intros Hen Hidle. apply Qle_bool_iff in Hidle.
  assert (Hs : dispatch (Inactivity_timeout probe) s =
               with_trace
                 (trace s ++ [OsSystem (system_command (on_windows s) sleep)])
                 s).
  { unfold dispatch. simpl. py_unfold. cbn. rewrite Hen. cbn.
    by rewrite Hidle. }
  cbn zeta. rewrite Hs. simpl. rewrite performs_app. by repeat split.
Qed.

Lemma auto_sleep_is_immediate_witness :
  let s' := dispatch (Inactivity_timeout (Some 61000)) idle_machine in
  s' = with_trace (trace idle_machine ++ [OsSystem "systemctl suspend"])
         idle_machine
  /\ performs (trace s') = performs (trace idle_machine) ++ ["systemctl suspend"]
  /\ scheduled_events s' = scheduled_events idle_machine
  /\ last_timer_id s' = last_timer_id idle_machine
  /\ exec_stack s' = exec_stack idle_machine
  /\ dialogs s' = dialogs idle_machine.
Proof.
  apply (auto_sleep_is_immediate (Some 61000) idle_machine).
  - reflexivity.
  - unfold Qle. simpl. lia.
Defined.

(** C7 as the specification states it fails: with logging enabled and a
    log file that cannot be opened, [log_event] raises, and so does the
    [schedule_action] that called it. *)
Lemma log_failure_propagates :
  ~ log_failure_swallowed (Fmt_scheduled_log sleep 9000) two_events_log_broken
  /\ result_of (schedule_action sleep 9000 0) two_events_log_broken
     = Raise OSError.
Proof.
  split; [unfold log_failure_swallowed; vm_compute; discriminate|].
  vm_compute. reflexivity.
Qed.

(** C7, amended. When logging is disabled [log_event] does nothing. When
    logging is enabled and the log file cannot be opened, the failure is
    not swallowed: [log_event] raises [OSError] without changing the state,
    and the exception leaves every method that logs a transition, after
    the registry change of the transition has been made. [schedule_action]
    (for a delay that [timer.start] accepts) has assigned the id, started
    the timer and stored the event; [execute_action] has removed the entry
    and issued the command; [cancel_event] has stopped the timer, removed
    the entry and set the label; [cancel_all_scheduled_events] has stopped
    the timer of its first event and removed that event only. *)
Theorem log_event_behaviour message s :
  (logging_enable (settings s) = false ->
   log_event message s = (Return tt, s))
  /\ (logging_enable (settings s) = true -> log_file s = None ->
      log_event message s = (Raise OSError, s)
      /\ (forall a scheduled_datetime current_time,
            current_time < scheduled_datetime ->
            c_int (interval_msec scheduled_datetime current_time) = true ->
            schedule_action a scheduled_datetime current_time s =
            (Raise OSError,
             with_scheduled_events
               (dict_set (last_timer_id s + 1)
                  (length (timers s), a, scheduled_datetime)
                  (scheduled_events s))
               (with_timers
                  (timers s
                   ++ [{| tm_interval :=
                            interval_msec scheduled_datetime current_time;
                          tm_active := true;
                          tm_slot := last_timer_id s + 1 |}])
                  (with_last_timer_id (last_timer_id s + 1) s))))
      /\ (forall id timer a dt,
            dict_get id (scheduled_events s) = Some (timer, a, dt) ->
            execute_action id s =
            (Raise OSError,
             with_trace
               (trace s ++ [OsSystem (system_command (on_windows s) a)])
               (with_scheduled_events (dict_del id (scheduled_events s)) s))
            /\ forall user_triggered,
                 cancel_event id user_triggered s =
                 (Raise OSError,
                  with_info_label (Fmt_canceled a dt user_triggered)
                    (with_scheduled_events
                       (dict_del id (scheduled_events s))
                       (with_timers (alter stopped timer (timers s)) s))))
      /\ (forall id timer a dt rest,
            scheduled_events s = (id, (timer, a, dt)) :: rest ->
            cancel_all_scheduled_events s =
            (Raise OSError,
             with_scheduled_events rest
               (with_timers (alter stopped timer (timers s)) s)))).
Proof.
  split.
  - intros Hoff. py_unfold. cbn. rewrite Hoff. by cbn.
  - intros Hon Hnone. split; [py_unfold; cbn; rewrite Hon; cbn; by rewrite Hnone|].
    split; [|split].
    + intros a dt now Hfut Hfit. unfold schedule_action.
      rewrite delay_not_positive. apply Z.leb_gt in Hfut. rewrite Hfut.
      py_unfold. cbn. rewrite Hfit. cbn. rewrite Hon. cbn. by rewrite Hnone.
    + intros id timer a dt E. split.
      * py_unfold. rewrite E. cbn. rewrite Hon. cbn. by rewrite Hnone.
      * intros user_triggered. py_unfold. rewrite E. cbn.
        destruct (match timers s !! timer with
                  | Some t => tm_active t | None => false end) eqn:Hact; cbn.
        -- rewrite Hon. cbn. by rewrite Hnone.
        -- rewrite Hon. cbn. rewrite Hnone. cbn.
           rewrite (alter_stopped_noop _ _ Hact).
           assert (with_timers (timers s) s = s) as -> by (by destruct s).
           done.
    + intros id timer a dt rest E.
      unfold cancel_all_scheduled_events, bind at 1, gets at 1. rewrite E.
      unfold bind at 1. rewrite cancel_all_loop_cons. cbn zeta.
      rewrite E. simpl dict_del. rewrite Z.eqb_refl.
      py_unfold. cbn. rewrite Hon. cbn. by rewrite Hnone.
Qed.

Lemma log_event_behaviour_witness :
  log_event (Fmt_executed_log restart) two_events = (Return tt, two_events)
  /\ log_event (Fmt_executed_log restart) two_events_log_broken
     = (Raise OSError, two_events_log_broken)
  /\ execute_action 1 two_events_log_broken =
     (Raise OSError,
      with_trace (trace two_events_log_broken
                  ++ [OsSystem (system_command false restart)])
        (with_scheduled_events
           (dict_del 1 (scheduled_events two_events_log_broken))
           two_events_log_broken)).
Proof.
  split.
  - apply (proj1 (log_event_behaviour (Fmt_executed_log restart) two_events)).
    reflexivity.
  - destruct (proj2 (log_event_behaviour (Fmt_executed_log restart)
                       two_events_log_broken) eq_refl eq_refl)
      as (H1 & _ & H3 & _).
    split; [exact H1|].
    exact (proj1 (H3 1 0%nat restart 2000 eq_refl)).
Defined.

(** ** Cancel all *)

Lemma log_event_disabled message s :
  logging_enable (settings s) = false -> log_event message s = (Return tt, s).
Proof. intros Hoff. py_unfold. cbn. rewrite Hoff. by cbn. Qed.

Lemma log_event_appends message s lines :
  logging_enable (settings s) = true -> log_file s = Some lines ->
  log_event message s =
  (Return tt, with_log_file (Some (lines ++ [message])) s).
Proof. intros Hon Hf. py_unfold. cbn. rewrite Hon. cbn. by rewrite Hf. Qed.

Lemma cancel_all_loop_ok items s :
  scheduled_events s = items ->
  logging_enable (settings s) = false \/ log_file s <> None ->
  cancel_all_loop items s =
  (Return tt,
   with_log_file (logged items s)
     (with_scheduled_events []
        (with_timers (stop_all items (timers s)) s))).
Proof.
  revert s. induction items as [|[id [[timer a] dt]] rest IH]; intros s Hs Hlog.
  - simpl. unfold ret. f_equal. unfold logged, stop_all. simpl.
    destruct s as [cfg evs last lbl ts ds st lf win tr]. simpl in *. subst evs.
    unfold with_log_file, with_scheduled_events, with_timers. simpl.
    f_equal. destruct (logging_enable cfg); [|done].
    destruct lf; simpl; [by rewrite app_nil_r | done].
  - rewrite cancel_all_loop_cons. cbn zeta.
    set (s1 := with_scheduled_events _ _).
    assert (Hs1 : scheduled_events s1 = rest).
    { unfold s1. simpl. rewrite Hs. simpl. by rewrite Z.eqb_refl. }
    destruct (logging_enable (settings s)) eqn:Hen.
    + destruct Hlog as [|Hlog]; [done|].
      destruct (log_file s) as [lines|] eqn:Hf; [|done].
      rewrite (log_event_appends _ s1 lines) by done.
      rewrite IH; [|done | by right].
      f_equal. unfold logged. simpl. rewrite Hen, Hf. simpl.
      unfold with_log_file, with_scheduled_events, with_timers. simpl.
      by rewrite <- app_assoc.
    + rewrite (log_event_disabled _ s1) by done.
      rewrite IH; [|done | by left].
      f_equal. unfold logged. simpl. by rewrite Hen.
Qed.

Lemma stop_all_lookup items (ts : list QTimer) r t' :
  stop_all items ts !! r = Some t' ->
  exists t, ts !! r = Some t
            /\ (tm_active t' = true -> tm_active t = true).
Proof.
  revert ts t'. induction items as [|it rest IH]; intros ts t' Hr.
  - by exists t'.
  - simpl in Hr. apply IH in Hr as (t1 & Hr1 & Ha1).
    apply lookup_alter_stopped in Hr1 as (t & Ht & _ & Hne & Heq).
    exists t. split; [done|]. intros Hact. specialize (Ha1 Hact).
    destruct (decide (r = it.2.1.1)) as [Hr|Hr].
    + rewrite (Heq Hr) in Ha1. discriminate.
    + by rewrite <- (Hne Hr).
Qed.

Lemma stop_all_inactive items (ts : list QTimer) r t' :
  stop_all items ts !! r = Some t' ->
  r ∈ (fun it : Z * ScheduledEvent => it.2.1.1) <$> items ->
  tm_active t' = false.
Proof.
  revert ts. induction items as [|it rest IH]; intros ts Hr Hin.
  - by apply elem_of_nil in Hin.
  - simpl in Hr, Hin. apply elem_of_cons in Hin as [->|Hin]; [|by eauto].
    apply stop_all_lookup in Hr as (t1 & Hr1 & Ha1).
    apply lookup_alter_stopped in Hr1 as (t & _ & _ & _ & Heq).
    apply not_true_is_false. intros Hact. specialize (Ha1 Hact).
    rewrite Heq in Ha1; done.
Qed.

Lemma cancel_all_empty s :
  scheduled_events s = [] ->
  cancel_all_scheduled_events s =
  (Return tt, with_info_label (Lit "No events to cancel.") s).
Proof.
  intros E. unfold cancel_all_scheduled_events, bind at 1, gets at 1.
  by rewrite E.
Qed.

Lemma cancel_all_nonempty s :
  scheduled_events s <> [] ->
  logging_enable (settings s) = false \/ log_file s <> None ->
  cancel_all_scheduled_events s =
  (Return tt,
   with_trace
     (trace s ++ [ShowMessage (Lit "All Canceled")
                    (Lit "All scheduled events have been canceled.")
                    Information 3000])
     (with_info_label (Lit "All scheduled events have been canceled.")
        (with_log_file (logged (scheduled_events s) s)
           (with_scheduled_events []
              (with_timers (stop_all (scheduled_events s) (timers s)) s))))).
Proof.
  intros Hne Hlog. unfold cancel_all_scheduled_events, bind at 1, gets at 1.
  destruct (scheduled_events s) as [|it items] eqn:E; [done|].
  unfold bind at 1. by rewrite (cancel_all_loop_ok (it :: items) s E Hlog).
Qed.

(** C6 as the specification states it fails. What [cancelAll] reports does
    not carry the number of events canceled: one event or two, the label
    and the tray message are the same. And where logging is enabled and the
    log file cannot be opened, the loop is left at its first event, the
    second stays registered. *)
Lemma cancel_all_counterexample :
  ~ cancel_all_reports_count /\ ~ cancel_all_empties two_events_log_broken.
Proof.
  split.
  - intros [count_of Hcount].
    pose proof (Hcount one_shutdown) as H1.
    pose proof (Hcount two_events) as H2.
    assert (Hsame : cancel_all_report one_shutdown
                    = cancel_all_report two_events)
      by (vm_compute; reflexivity).
    rewrite Hsame, H2 in H1. vm_compute in H1. discriminate H1.
  - unfold cancel_all_empties. vm_compute. discriminate.
Qed.

(** C6, amended. Where logging is disabled or the log file can be written,
    [cancelAll] on a registry of N events stops the timer of every one of
    them, leaves the registry empty, calls the action executor zero times,
    keeps the id counter and, with logging enabled, appends N "Canceled"
    lines to the log. It announces a fixed message that carries no count:
    "All scheduled events have been canceled." on the label and in the
    tray, or, when the registry was empty, "No events to cancel." on the
    label only, nothing else changing and no error being raised. *)
Theorem cancel_all_when_log_writable s :
  logging_enable (settings s) = false \/ log_file s <> None ->
  let s' := exec cancel_all_scheduled_events s in
  result_of cancel_all_scheduled_events s = Return tt
  /\ scheduled_events s' = []
  /\ performs (trace s') = performs (trace s)
  /\ (forall id timer a dt t,
        (id, (timer, a, dt)) ∈ scheduled_events s ->
        timers s' !! timer = Some t -> tm_active t = false)
  /\ last_timer_id s' = last_timer_id s
  /\ log_file s' = logged (scheduled_events s) s
  /\ cancel_all_report s =
     match scheduled_events s with
     | [] => (Lit "No events to cancel.", [])
     | _ :: _ =>
         (Lit "All scheduled events have been canceled.",
          [ShowMessage (Lit "All Canceled")
             (Lit "All scheduled events have been canceled.")
             Information 3000])
     end
  /\ (scheduled_events s = [] ->
      s' = with_info_label (Lit "No events to cancel.") s).
Proof.
  intros Hlog. unfold cancel_all_report. cbn zeta. unfold exec, result_of.
  destruct (scheduled_events s) as [|it items] eqn:E.
  - rewrite (cancel_all_empty s E). simpl. rewrite E, drop_all.
    repeat split; try done.
    + intros id timer a dt t Hin. by apply elem_of_nil in Hin.
    + unfold logged. destruct (logging_enable (settings s)); [|done].
      destruct (log_file s); simpl; [by rewrite app_nil_r | done].
  - rewrite (cancel_all_nonempty s); [|by rewrite E | done]. simpl.
    rewrite performs_app, drop_app_length. simpl. rewrite app_nil_r, E.
    repeat split; try done.
    intros id timer a dt t Hin Ht.
    apply (stop_all_inactive (it :: items) (timers s) timer t Ht).
    apply list_elem_of_fmap. by exists (id, (timer, a, dt)).
Qed.

Lemma cancel_all_when_log_writable_witness :
  let s' := exec cancel_all_scheduled_events two_events in
  result_of cancel_all_scheduled_events two_events = Return tt
  /\ scheduled_events s' = []
  /\ performs (trace s') = performs (trace two_events)
  /\ (forall id timer a dt t,
        (id, (timer, a, dt)) ∈ scheduled_events two_events ->
        timers s' !! timer = Some t -> tm_active t = false)
  /\ last_timer_id s' = last_timer_id two_events
  /\ log_file s' = logged (scheduled_events two_events) two_events
  /\ cancel_all_report two_events =
     (Lit "All scheduled events have been canceled.",
      [ShowMessage (Lit "All Canceled")
         (Lit "All scheduled events have been canceled.")
         Information 3000])
  /\ (scheduled_events two_events = [] ->
      s' = with_info_label (Lit "No events to cancel.") two_events).
Proof.
  apply (cancel_all_when_log_writable two_events). by left.
Defined.

(** * Further properties of the scheduler *)

Lemma Inv_fresh_id s :
  Inv s -> dict_get (last_timer_id s + 1) (scheduled_events s) = None.
Proof.
  intros (_ & He & _).
  destruct (dict_get (last_timer_id s + 1) (scheduled_events s))
    as [[[r a] dt]|] eqn:E; [|done].
  destruct (He _ _ _ _ E) as [Hle _]. lia.
Qed.

Lemma event_state_same s s' id :
  Inv s ->
  dict_get id (scheduled_events s') = dict_get id (scheduled_events s) ->
  (forall r t, timers s !! r = Some t ->
     tm_slot t = id -> timers s' !! r = Some t) ->
  exec_stack s' = exec_stack s ->
  event_state s' id = event_state s id.
Proof.
  intros (_ & He & _) Hg Ht Hst. unfold event_state. rewrite Hg, Hst.
  destruct (dict_get id (scheduled_events s)) as [[[r a] dt]|] eqn:E; [|done].
  destruct (He _ _ _ _ E) as (_ & t & Hr & Hslot & _).
  by rewrite (Ht r t Hr Hslot), Hr.
Qed.

(** X1. A schedule request for a time strictly in the future whose delay
    in milliseconds, as the code computes it, fits a C [int], made in any
    reachable state, appends one event to the registry under the id one
    above the counter, with the requested action and time, and that event
    is Armed; every other id keeps its entry and its state, and nothing is
    executed. This does not depend on whether the log can be written. *)
Theorem schedule_action_registers s a scheduled_datetime current_time :
  reachable s ->
  current_time < scheduled_datetime ->
  c_int (interval_msec scheduled_datetime current_time) = true ->
  let s' := exec (schedule_action a scheduled_datetime current_time) s in
  let id := last_timer_id s + 1 in
  scheduled_events s' =
    scheduled_events s ++ [(id, (length (timers s), a, scheduled_datetime))]
  /\ last_timer_id s' = id
  /\ event_state s' id = Some Armed
  /\ (forall id', id' <> id ->
        dict_get id' (scheduled_events s') = dict_get id' (scheduled_events s)
        /\ event_state s' id' = event_state s id')
  /\ performs (trace s') = performs (trace s).
Proof.
  intros Hreach Hfut Hfit. apply reachable_Inv in Hreach as HI. cbn zeta.
  destruct (schedule_action_future a _ _ s Hfut Hfit)
    as (interval & H1 & H2 & H3 & H4 & _ & _ & _ & H8).
  pose proof (Inv_fresh_id s HI) as Hfresh.
  rewrite (dict_set_fresh _ _ _ Hfresh) in H1.
  split; [done|]. split; [done|]. split; [|split; [|done]].
  - unfold event_state. rewrite H1, dict_get_snoc, Hfresh, Z.eqb_refl, H3.
    rewrite list_lookup_middle by done. simpl.
    rewrite bool_decide_eq_false_2; [done|]. rewrite H4. intros Hin.
    destruct HI as (_ & _ & _ & _ & Hf). destruct (Hf _ Hin) as [Hle _]. lia.
  - intros id' Hne.
    assert (Hg : dict_get id' (scheduled_events
                   (exec (schedule_action a scheduled_datetime current_time) s))
                 = dict_get id' (scheduled_events s)).
    { rewrite H1, dict_get_snoc.
      destruct (dict_get id' (scheduled_events s)); [done|].
      destruct (Z.eqb_spec id' (last_timer_id s + 1)); [done | done]. }
    split; [done|]. apply event_state_same; try done.
    intros r t Hr _. rewrite H3. by apply lookup_app_l_Some.
Qed.

Lemma schedule_action_registers_witness :
  let s' := exec (schedule_action sleep 9000 100) two_events in
  scheduled_events s' = scheduled_events two_events ++ [(3, (2%nat, sleep, 9000))]
  /\ last_timer_id s' = 3
  /\ event_state s' 3 = Some Armed
  /\ (forall id', id' <> 3 ->
        dict_get id' (scheduled_events s')
        = dict_get id' (scheduled_events two_events)
        /\ event_state s' id' = event_state two_events id')
  /\ performs (trace s') = performs (trace two_events).
Proof.
  apply (schedule_action_registers two_events sleep 9000 100).
  - apply reachable_run, reachable_init.
  - lia.
  - reflexivity.
Defined.

(** X2. When logging is enabled and the log file cannot be opened, a
    schedule request for a future time whose delay [timer.start] accepts
    still registers the event and starts its timer before [OSError] leaves
    [schedule_action]; the label and the tray are not updated, so the user
    is not told that the event is registered. *)
Theorem schedule_action_log_failure s a scheduled_datetime current_time :
  logging_enable (settings s) = true -> log_file s = None ->
  current_time < scheduled_datetime ->
  c_int (interval_msec scheduled_datetime current_time) = true ->
  let s' := exec (schedule_action a scheduled_datetime current_time) s in
  let id := last_timer_id s + 1 in
  result_of (schedule_action a scheduled_datetime current_time) s
    = Raise OSError
  /\ dict_get id (scheduled_events s')
     = Some (length (timers s), a, scheduled_datetime)
  /\ last_timer_id s' = id
  /\ (exists t, timers s' !! length (timers s) = Some t
                /\ tm_active t = true /\ tm_slot t = id)
  /\ info_label s' = info_label s
  /\ trace s' = trace s.
Proof.
  intros Hon Hnone Hfut Hfit. cbn zeta.
  unfold exec, result_of, schedule_action.
  rewrite delay_not_positive. apply Z.leb_gt in Hfut. rewrite Hfut.
  py_unfold. cbn. rewrite Hfit. cbn. rewrite Hon. cbn. rewrite Hnone. cbn.
  split; [done|]. split; [apply dict_get_set_eq|]. split; [done|].
  split; [|done]. eexists. split; [by apply list_lookup_middle|]. done.
Qed.

Lemma schedule_action_log_failure_witness :
  let s' := exec (schedule_action sleep 9000 100) log_broken_idle in
  result_of (schedule_action sleep 9000 100) log_broken_idle = Raise OSError
  /\ dict_get 1 (scheduled_events s') = Some (0%nat, sleep, 9000)
  /\ last_timer_id s' = 1
  /\ (exists t, timers s' !! 0%nat = Some t
                /\ tm_active t = true /\ tm_slot t = 1)
  /\ info_label s' = info_label log_broken_idle
  /\ trace s' = trace log_broken_idle.
Proof.
  apply (schedule_action_log_failure log_broken_idle sleep 9000 100);
    [reflexivity | reflexivity | lia | reflexivity].
Defined.

(** X3. When logging is enabled and the log file cannot be opened, the
    transition is made before the exception leaves the method.
    [execute_action] has removed the entry and issued the command, and only
    the label and the tray message are missing; [cancel_event] has stopped
    the timer, removed the entry and set the label, and only the tray
    message is missing. *)
Theorem transition_done_before_log_failure s id timer a dt :
  logging_enable (settings s) = true -> log_file s = None ->
  dict_get id (scheduled_events s) = Some (timer, a, dt) ->
  execute_action id s =
    (Raise OSError,
     with_trace (trace s ++ [OsSystem (system_command (on_windows s) a)])
       (with_scheduled_events (dict_del id (scheduled_events s)) s))
  /\ forall user_triggered,
       cancel_event id user_triggered s =
       (Raise OSError,
        with_info_label (Fmt_canceled a dt user_triggered)
          (with_scheduled_events (dict_del id (scheduled_events s))
             (with_timers (alter stopped timer (timers s)) s))).
Proof.
  intros Hon Hnone E. split.
  - py_unfold. rewrite E. cbn. rewrite Hon. cbn. by rewrite Hnone.
  - intros user_triggered. py_unfold. rewrite E. cbn.
    destruct (match timers s !! timer with
              | Some t => tm_active t | None => false end) eqn:Hact; cbn.
    + rewrite Hon. cbn. by rewrite Hnone.
    + rewrite Hon. cbn. rewrite Hnone. cbn.
      rewrite (alter_stopped_noop _ _ Hact).
      assert (with_timers (timers s) s = s) as -> by (by destruct s). done.
Qed.

Lemma transition_done_before_log_failure_witness :
  execute_action 1 two_events_log_broken =
    (Raise OSError,
     with_trace (trace two_events_log_broken
                 ++ [OsSystem (system_command false restart)])
       (with_scheduled_events
          (dict_del 1 (scheduled_events two_events_log_broken))
          two_events_log_broken))
  /\ forall user_triggered,
       cancel_event 1 user_triggered two_events_log_broken =
       (Raise OSError,
        with_info_label (Fmt_canceled restart 2000 user_triggered)
          (with_scheduled_events
             (dict_del 1 (scheduled_events two_events_log_broken))
             (with_timers (alter stopped 0%nat (timers two_events_log_broken))
                two_events_log_broken))).
Proof.
  apply (transition_done_before_log_failure two_events_log_broken 1 0%nat
           restart 2000); reflexivity.
Defined.

(** X4. Execution and cancellation exclude each other and neither repeats:
    in a registry with distinct ids, once [execute_action] or
    [cancel_event] has run for an id, running either of them again for the
    same id returns at once and changes nothing. *)
Theorem execute_cancel_exclusive s id user_triggered :
  NoDup (dict_keys (scheduled_events s)) ->
  (let s1 := exec (execute_action id) s in
   execute_action id s1 = (Return tt, s1)
   /\ forall b, cancel_event id b s1 = (Return tt, s1))
  /\ (let s2 := exec (cancel_event id user_triggered) s in
      execute_action id s2 = (Return tt, s2)
      /\ forall b, cancel_event id b s2 = (Return tt, s2)).
Proof.
  intros Hnd.
  assert (H1 : dict_get id (scheduled_events (exec (execute_action id) s))
               = None).
  { destruct (dict_get id (scheduled_events s)) as [[[r a] dt]|] eqn:E.
    - destruct (execute_action_present _ _ _ _ _ E) as (-> & _).
      by apply dict_get_del_eq.
    - unfold exec. by rewrite execute_action_absent. }
  assert (H2 : dict_get id
                 (scheduled_events (exec (cancel_event id user_triggered) s))
               = None).
  { destruct (dict_get id (scheduled_events s)) as [[[r a] dt]|] eqn:E.
    - destruct (cancel_event_present _ user_triggered _ _ _ _ E) as (-> & _).
      by apply dict_get_del_eq.
    - unfold exec. by rewrite cancel_event_absent. }
  split; cbn zeta.
  - split; [by apply execute_action_absent|].
    intros b. by apply cancel_event_absent.
  - split; [by apply execute_action_absent|].
    intros b. by apply cancel_event_absent.
Qed.

Lemma execute_cancel_exclusive_witness :
  (let s1 := exec (execute_action 1) two_events in
   execute_action 1 s1 = (Return tt, s1)
   /\ forall b, cancel_event 1 b s1 = (Return tt, s1))
  /\ (let s2 := exec (cancel_event 1 true) two_events in
      execute_action 1 s2 = (Return tt, s2)
      /\ forall b, cancel_event 1 b s2 = (Return tt, s2)).
Proof.
  apply (execute_cancel_exclusive two_events 1 true).
  apply (proj1 (reachable_Inv two_events
                  (reachable_run _ _ (reachable_init _ _ _)))).
Defined.

(** X8. Canceling or executing one event does not disturb any other: in a
    reachable state every other id keeps its entry and its state (its timer
    is not touched). *)
Theorem other_events_untouched s id id' user_triggered :
  reachable s -> id' <> id ->
  (let s1 := exec (cancel_event id user_triggered) s in
   dict_get id' (scheduled_events s1) = dict_get id' (scheduled_events s)
   /\ event_state s1 id' = event_state s id')
  /\ (let s2 := exec (execute_action id) s in
      dict_get id' (scheduled_events s2) = dict_get id' (scheduled_events s)
      /\ event_state s2 id' = event_state s id').
Proof.
  intros Hreach Hne. apply reachable_Inv in Hreach as HI. split; cbn zeta.
  - destruct (dict_get id (scheduled_events s)) as [[[r a] dt]|] eqn:E.
    + destruct (cancel_event_present _ user_triggered _ _ _ _ E)
        as (H1 & _ & H3 & H4 & _).
      assert (Hg : dict_get id'
                     (scheduled_events (exec (cancel_event id user_triggered) s))
                   = dict_get id' (scheduled_events s)).
      { rewrite H1. apply dict_get_del_ne. congruence. }
      split; [done|]. apply event_state_same; try done.
      intros r' t' Hr' Hslot. rewrite H3.
      rewrite list_lookup_alter_ne; [done|]. intros <-.
      destruct HI as (_ & He & _).
      destruct (He _ _ _ _ E) as (_ & t & Ht & Hs & _). congruence.
    + unfold exec. by rewrite cancel_event_absent.
  - destruct (dict_get id (scheduled_events s)) as [[[r a] dt]|] eqn:E.
    + destruct (execute_action_present _ _ _ _ _ E) as (H1 & _ & H3 & H4 & _).
      assert (Hg : dict_get id' (scheduled_events (exec (execute_action id) s))
                   = dict_get id' (scheduled_events s)).
      { rewrite H1. apply dict_get_del_ne. congruence. }
      split; [done|]. apply event_state_same; try done.
      intros r' t' Hr' _. by rewrite H3.
    + unfold exec. by rewrite execute_action_absent.
Qed.

Lemma other_events_untouched_witness :
  (let s1 := exec (cancel_event 1 true) two_events in
   dict_get 2 (scheduled_events s1) = dict_get 2 (scheduled_events two_events)
   /\ event_state s1 2 = event_state two_events 2)
  /\ (let s2 := exec (execute_action 1) two_events in
      dict_get 2 (scheduled_events s2)
      = dict_get 2 (scheduled_events two_events)
      /\ event_state s2 2 = event_state two_events 2).
Proof.
  apply (other_events_untouched two_events 1 2 true).
  - apply reachable_run, reachable_init.
  - lia.
Defined.

(** ** More on cancel-all *)

Lemma cancel_all_loop_frame items s :
  let s' := exec (cancel_all_loop items) s in
  trace s' = trace s /\ info_label s' = info_label s
  /\ last_timer_id s' = last_timer_id s /\ exec_stack s' = exec_stack s
  /\ settings s' = settings s /\ dialogs s' = dialogs s.
Proof.
  revert s. induction items as [|[id [[timer a] dt]] rest IH]; intros s.
  - done.
  - cbn zeta. unfold exec. rewrite cancel_all_loop_cons. cbn zeta.
    set (s1 := with_scheduled_events _ _).
    destruct (log_event_outcome (Fmt_canceled a dt false) s1)
      as [-> | [[lines ->] | ->]].
    + apply (IH s1).
    + apply (IH (with_log_file (Some (lines ++ [Fmt_canceled a dt false])) s1)).
    + done.
Qed.

Lemma cancel_all_unfold s :
  cancel_all_scheduled_events s =
  match scheduled_events s with
  | [] => (Return tt, with_info_label (Lit "No events to cancel.") s)
  | _ :: _ =>
      match cancel_all_loop (scheduled_events s) s with
      | (Return _, s1) =>
          (Return tt,
           with_trace
             (trace s1 ++ [ShowMessage (Lit "All Canceled")
                             (Lit "All scheduled events have been canceled.")
                             Information 3000])
             (with_info_label
                (Lit "All scheduled events have been canceled.") s1))
      | (Raise e, s1) => (Raise e, s1)
      end
  end.
Proof.
  unfold cancel_all_scheduled_events, bind at 1, gets at 1.
  destruct (scheduled_events s) as [|it items]; [done|].
  unfold bind at 1.
  by destruct (cancel_all_loop (it :: items) s) as [[[]|e] s1].
Qed.

(** X5. Whatever the state, and whether or not its log writes fail,
    [cancel_all_scheduled_events] hands no command to the action executor,
    assigns no id, and leaves the settings and the suspended
    pre-notifications as they are. *)
Theorem cancel_all_never_performs s :
  let s' := exec cancel_all_scheduled_events s in
  performs (trace s') = performs (trace s)
  /\ last_timer_id s' = last_timer_id s
  /\ exec_stack s' = exec_stack s
  /\ settings s' = settings s.
Proof.
  cbn zeta. unfold exec. rewrite cancel_all_unfold.
  destruct (scheduled_events s) as [|it items] eqn:E; [done|].
  pose proof (cancel_all_loop_frame (it :: items) s)
    as (H1 & _ & H3 & H4 & H5 & _).
  unfold exec in *.
  destruct (cancel_all_loop (it :: items) s) as [[[]|e] s1]; simpl in *.
  - rewrite performs_app, H1. simpl. by rewrite app_nil_r.
  - by rewrite H1.
Qed.

(** X6. With logging enabled and a log file that cannot be opened,
    [cancel_all_scheduled_events] on a non-empty registry stops the timer
    of the first event (in insertion order), removes that event and raises;
    every later event stays registered with its timer as it was, and
    neither the label nor the tray is updated. *)
Theorem cancel_all_log_failure s id timer a dt rest :
  logging_enable (settings s) = true -> log_file s = None ->
  scheduled_events s = (id, (timer, a, dt)) :: rest ->
  cancel_all_scheduled_events s =
  (Raise OSError,
   with_scheduled_events rest
     (with_timers (alter stopped timer (timers s)) s)).
Proof.
  intros Hon Hnone E.
  unfold cancel_all_scheduled_events, bind at 1, gets at 1. rewrite E.
  unfold bind at 1. rewrite cancel_all_loop_cons. cbn zeta.
  rewrite E. simpl dict_del. rewrite Z.eqb_refl.
  py_unfold. cbn. rewrite Hon. cbn. by rewrite Hnone.
Qed.

Lemma cancel_all_log_failure_witness :
  cancel_all_scheduled_events two_events_log_broken =
  (Raise OSError,
   with_scheduled_events [(2, (1%nat, shutdown, 5000))]
     (with_timers (alter stopped 0%nat (timers two_events_log_broken))
        two_events_log_broken)).
Proof.
  apply (cancel_all_log_failure two_events_log_broken 1 0%nat restart 2000
           [(2, (1%nat, shutdown, 5000))]); reflexivity.
Defined.

(** X7. Cancel-all is idempotent: where logging is disabled or the log can
    be written, a second [cancel_all_scheduled_events] right after the
    first only sets the label to "No events to cancel.". *)
Theorem cancel_all_twice s :
  logging_enable (settings s) = false \/ log_file s <> None ->
  let s1 := exec cancel_all_scheduled_events s in
  cancel_all_scheduled_events s1 =
  (Return tt, with_info_label (Lit "No events to cancel.") s1).
Proof.
  intros Hlog. cbn zeta. apply cancel_all_empty. unfold exec.
  destruct (scheduled_events s) as [|it items] eqn:E.
  - by rewrite (cancel_all_empty s E).
  - by rewrite (cancel_all_nonempty s); [|by rewrite E | done].
Qed.

Lemma cancel_all_twice_witness :
  let s1 := exec cancel_all_scheduled_events two_events in
  cancel_all_scheduled_events s1 =
  (Return tt, with_info_label (Lit "No events to cancel.") s1).
Proof. apply (cancel_all_twice two_events). by left. Defined.

(** ** More on the inactivity watchdog *)

Lemma threshold_reached minutes probe :
  Qle_bool (inject_Z (minutes * 60)) (get_system_idle_time_seconds probe)
  = (minutes * 60000 <=? default 0 probe).
Proof.
  destruct probe as [elapsed_ms|]; unfold Qle_bool; simpl.
  - destruct (Z.leb_spec (minutes * 60 * 1000) (elapsed_ms * 1));
      destruct (Z.leb_spec (minutes * 60000) elapsed_ms); lia.
  - destruct (Z.leb_spec (minutes * 60 * 1) 0);
      destruct (Z.leb_spec (minutes * 60000) 0); lia.
Qed.

Lemma check_inactivity_cases probe s :
  dispatch (Inactivity_timeout probe) s =
  if auto_sleep_enable (settings s)
     && (auto_sleep_timeout_minutes (settings s) * 60000 <=? default 0 probe)
  then with_trace (trace s ++ [OsSystem (system_command (on_windows s) sleep)])
         s
  else s.
Proof.
  unfold dispatch. simpl. py_unfold. cbn.
  destruct (auto_sleep_enable (settings s)); cbn; [|done].
  rewrite threshold_reached.
  by destruct (_ <=? _).
Qed.

(** X9. A poll of the watchdog issues the sleep command exactly when
    auto-sleep is enabled and the idle time in milliseconds is at least
    60000 times the timeout in minutes, the idle time counting as zero
    where no probe is available; otherwise the poll changes nothing. So
    without a probe a timeout of at least one minute never sleeps, and a
    timeout of zero or less sleeps at every poll. *)
Theorem inactivity_poll_sleeps_iff probe s :
  let s' := dispatch (Inactivity_timeout probe) s in
  (auto_sleep_enable (settings s) = true
   /\ auto_sleep_timeout_minutes (settings s) * 60000 <= default 0 probe ->
   performs (trace s') =
   performs (trace s) ++ [system_command (on_windows s) sleep])
  /\ (auto_sleep_enable (settings s) = false
      \/ default 0 probe < auto_sleep_timeout_minutes (settings s) * 60000 ->
      s' = s)
  /\ (probe = None -> 1 <= auto_sleep_timeout_minutes (settings s) -> s' = s)
  /\ (auto_sleep_enable (settings s) = true ->
      auto_sleep_timeout_minutes (settings s) <= 0 -> 0 <= default 0 probe ->
      performs (trace s') =
      performs (trace s) ++ [system_command (on_windows s) sleep]).
Proof.
  cbn zeta. rewrite check_inactivity_cases.
  assert (Hyes : auto_sleep_enable (settings s) = true ->
            auto_sleep_timeout_minutes (settings s) * 60000 <= default 0 probe ->
            performs (trace
              (if auto_sleep_enable (settings s)
                  && (auto_sleep_timeout_minutes (settings s) * 60000
                      <=? default 0 probe)
               then with_trace
                      (trace s
                       ++ [OsSystem (system_command (on_windows s) sleep)]) s
               else s))
            = performs (trace s) ++ [system_command (on_windows s) sleep]).
  { intros Hen Hle. apply Z.leb_le in Hle. rewrite Hen, Hle. simpl.
    by rewrite performs_app. }
  assert (Hno : auto_sleep_enable (settings s) = false
            \/ default 0 probe < auto_sleep_timeout_minutes (settings s) * 60000 ->
            (if auto_sleep_enable (settings s)
                && (auto_sleep_timeout_minutes (settings s) * 60000
                    <=? default 0 probe)
             then with_trace
                    (trace s
                     ++ [OsSystem (system_command (on_windows s) sleep)]) s
             else s) = s).
  { intros [Hoff | Hlt]; [by rewrite Hoff|].
    apply Z.leb_gt in Hlt. rewrite Hlt. by rewrite andb_false_r. }
  split; [intros [Hen Hle]; by apply Hyes|]. split; [exact Hno|]. split.
  - intros -> Hmin. apply Hno. right. simpl. lia.
  - intros Hen Hmin Hidle. apply Hyes; [done | lia].
Qed.

Lemma inactivity_poll_sleeps_iff_witness :
  (performs (trace (dispatch (Inactivity_timeout (Some 61000)) idle_machine))
   = performs (trace idle_machine) ++ [system_command false sleep])
  /\ dispatch (Inactivity_timeout (Some 59999)) idle_machine = idle_machine
  /\ dispatch (Inactivity_timeout None) idle_machine = idle_machine.
Proof.
  split; [|split].
  - apply (proj1 (inactivity_poll_sleeps_iff (Some 61000) idle_machine)).
    split; [reflexivity | simpl; lia].
  - apply (proj1 (proj2 (inactivity_poll_sleeps_iff (Some 59999) idle_machine))).
    right. simpl. lia.
  - apply (proj1 (proj2 (proj2
             (inactivity_poll_sleeps_iff None idle_machine))));
      [reflexivity | simpl; lia].
Defined.

Lemma poll_fields probe s :
  let s' := dispatch (Inactivity_timeout probe) s in
  settings s' = settings s /\ on_windows s' = on_windows s
  /\ scheduled_events s' = scheduled_events s.
Proof. cbn zeta. rewrite check_inactivity_cases. by destruct (_ && _). Qed.

Lemma polls_fields k probe s :
  settings (polls k probe s) = settings s
  /\ on_windows (polls k probe s) = on_windows s
  /\ scheduled_events (polls k probe s) = scheduled_events s.
Proof.
  induction k as [|k (IH1 & IH2 & IH3)]; [done|].
  unfold polls in *. simpl.
  destruct (poll_fields probe (Nat.iter k (dispatch (Inactivity_timeout probe)) s))
    as (H1 & H2 & H3).
  rewrite H1, H2, H3. done.
Qed.

(** X10. The watchdog does not remember that it has already triggered:
    while auto-sleep is enabled and the idle time stays at or above the
    timeout, each of [k] successive polls issues the sleep command again. *)
Theorem repeated_polls_repeat_sleep k probe s :
  auto_sleep_enable (settings s) = true ->
  auto_sleep_timeout_minutes (settings s) * 60000 <= default 0 probe ->
  performs (trace (polls k probe s)) =
  performs (trace s) ++ replicate k (system_command (on_windows s) sleep)
  /\ scheduled_events (polls k probe s) = scheduled_events s.
Proof.
  intros Hen Hle. apply Z.leb_le in Hle.
  split; [|apply polls_fields].
  induction k as [|k IH].
  - simpl. by rewrite app_nil_r.
  - destruct (polls_fields k probe s) as (Hs & Hw & _).
    rewrite replicate_S_end, app_assoc, <- IH.
    unfold polls in *. simpl Nat.iter. rewrite check_inactivity_cases.
    rewrite Hs, Hw, Hen, Hle. simpl.
    by rewrite performs_app.
Qed.

Lemma repeated_polls_repeat_sleep_witness :
  performs (trace (polls 3 (Some 61000) idle_machine)) =
  performs (trace idle_machine) ++ replicate 3 (system_command false sleep)
  /\ scheduled_events (polls 3 (Some 61000) idle_machine)
     = scheduled_events idle_machine.
Proof.
  apply (repeated_polls_repeat_sleep 3 (Some 61000) idle_machine).
  - reflexivity.
  - simpl. lia.
Defined.

(** ** More on the pre-notification dialog *)

Lemma ticks_general k ds d s :
  dialogs s = ds ++ [d] ->
  ticks k (length ds) s = with_dialogs (ds ++ [Nat.iter k tick_dialog d]) s.
Proof.
  intros Hd. induction k as [|k IH].
  - simpl. rewrite <- Hd. by destruct s.
  - unfold ticks in *. simpl. rewrite IH.
    unfold dispatch. simpl. unfold exec, bind at 1, gets at 1. simpl.
    rewrite list_lookup_middle by done.
    set (dk := Nat.iter k tick_dialog d).
    assert (Hdk : tick_dialog dk
                  = if close_timer_active dk then on_timeout dk else dk)
      by done.
    rewrite Hdk. destruct (close_timer_active dk); [|done].
    unfold modify. simpl. by rewrite alter_last.
Qed.

Lemma tick_dialog_iter k d :
  user_canceled (Nat.iter k tick_dialog d) = user_canceled d
  /\ (dlg_visible d = false -> dlg_visible (Nat.iter k tick_dialog d) = false).
Proof.
  induction k as [|k [IH1 IH2]]; [done|]. simpl.
  unfold tick_dialog at 1 3.
  destruct (close_timer_active (Nat.iter k tick_dialog d)); [|done].
  unfold on_timeout.
  destruct (remaining_time (Nat.iter k tick_dialog d) - 1 <=? 0); simpl; auto.
Qed.

Lemma timer_timeout_notify s id timer a dt :
  Inv s ->
  dict_get id (scheduled_events s) = Some (timer, a, dt) ->
  event_state s id = Some Armed ->
  notifications_enable (settings s) = true ->
  dispatch (Timer_timeout timer) s =
  with_exec_stack ((id, length (dialogs s)) :: exec_stack s)
    (with_dialogs
       (dialogs s
        ++ [opened_dialog a (notifications_seconds_before (settings s))])
       (with_trace
          (trace s ++ [ShowMessage (Lit "Action About to Happen")
                         (Fmt_about_to_happen a
                            (notifications_seconds_before (settings s)))
                         Warning 5000])
          (with_timers (alter stopped timer (timers s)) s))).
Proof.
  intros HI E Harmed Hon.
  destruct (event_state_Armed _ _ _ _ _ E Harmed) as (t & Ht & Hact).
  pose proof (Inv_core_event_slot _ _ _ _ _ _ _ _ _ HI E Ht) as Hslot.
  rewrite (timer_timeout_active _ _ _ Ht Hact), Hslot. unfold exec.
  by rewrite (prepare_for_action_notify _ _ timer a dt).
Qed.

(** X11. A lead time of one second or less, zero and negative values of a
    hand-edited configuration included, does not skip the pre-notification:
    the dialog is shown, its first tick closes it, and when [exec_()]
    returns the action is executed exactly once and the event removed. *)
Theorem short_lead_time_executes_at_first_tick s id timer a dt :
  reachable s ->
  dict_get id (scheduled_events s) = Some (timer, a, dt) ->
  event_state s id = Some Armed ->
  notifications_enable (settings s) = true ->
  notifications_seconds_before (settings s) <= 1 ->
  let dialog := length (dialogs s) in
  let s1 := dispatch (Timer_timeout timer) s in
  let s2 := dispatch Exec_returns (ticks 1 dialog s1) in
  event_state s1 id = Some PreNotifying
  /\ performs (trace s1) = performs (trace s)
  /\ performs (trace s2) =
     performs (trace s) ++ [system_command (on_windows s) a]
  /\ dict_get id (scheduled_events s2) = None.
Proof.
  intros Hreach E Harmed Hon Hshort. apply reachable_Inv in Hreach as HI.
  destruct (event_state_Armed _ _ _ _ _ E Harmed) as (t & Ht & Hact).
  assert (Hnd : NoDup (dict_keys (scheduled_events s))) by apply HI.
  cbn zeta. rewrite (timer_timeout_notify _ _ _ _ _ HI E Harmed Hon).
  set (secs := notifications_seconds_before (settings s)) in *.
  set (s1 := with_exec_stack _ _).
  assert (Htr1 : performs (trace s1) = performs (trace s)).
  { unfold s1. simpl. rewrite performs_app. simpl. apply app_nil_r. }
  split; [|split; [done|]].
  - apply (event_state_pre_notifying _ _ timer a dt (stopped t)).
    + exact E.
    + simpl. by rewrite list_lookup_alter_eq, Ht.
    + done.
    + simpl. apply elem_of_cons. by left.
  - rewrite (ticks_general 1 (dialogs s) (opened_dialog a secs)) by done.
    simpl Nat.iter. unfold tick_dialog. simpl close_timer_active. cbv iota.
    assert (Hclosed : dlg_visible (on_timeout (opened_dialog a secs)) = false
                      /\ user_canceled (on_timeout (opened_dialog a secs))
                         = false).
    { unfold on_timeout. simpl.
      destruct (Z.leb_spec (secs - 1) 0); [done | lia]. }
    destruct Hclosed as [Hv Hu].
    rewrite (exec_returns_closed _ id (length (dialogs s)) (exec_stack s)
               (on_timeout (opened_dialog a secs)));
      [| done | simpl; by apply list_lookup_middle | done].
    rewrite Hu. set (s' := with_exec_stack _ _).
    assert (E' : dict_get id (scheduled_events s') = Some (timer, a, dt))
      by exact E.
    destruct (execute_action_present _ _ _ _ _ E')
      as (H1 & _ & _ & _ & _ & _ & _ & H8).
    split; [rewrite H8; by rewrite <- Htr1|].
    rewrite H1. by apply dict_get_del_eq.
Qed.

Lemma short_lead_time_executes_at_first_tick_witness :
  let s1 := dispatch (Timer_timeout 0%nat) one_restart_notify_zero in
  let s2 := dispatch Exec_returns (ticks 1 0 s1) in
  event_state s1 1 = Some PreNotifying
  /\ performs (trace s1) = performs (trace one_restart_notify_zero)
  /\ performs (trace s2) =
     performs (trace one_restart_notify_zero) ++ [system_command false restart]
  /\ dict_get 1 (scheduled_events s2) = None.
Proof.
  apply (short_lead_time_executes_at_first_tick one_restart_notify_zero 1 0%nat
           restart 2000).
  - apply reachable_run, reachable_init.
  - reflexivity.
  - reflexivity.
  - reflexivity.
  - vm_compute. by intros.
Defined.

(** X12. Once [reject()] has run on the dialog, which Qt calls on a close
    request to the dialog window, the cancellation stands whatever the
    dialog's timer does afterwards. [reject()] does not stop the one-second
    timer of the dialog, so it may tick on, down to zero and its own
    [accept()], before [exec_()] returns; the event is canceled all the
    same and nothing is executed. *)
Theorem cancel_survives_late_ticks s id timer a dt k j :
  reachable s ->
  dict_get id (scheduled_events s) = Some (timer, a, dt) ->
  event_state s id = Some Armed ->
  notifications_enable (settings s) = true ->
  (k < Z.to_nat (notifications_seconds_before (settings s)))%nat ->
  let dialog := length (dialogs s) in
  let s1 := dispatch (Timer_timeout timer) s in
  let s2 := dispatch (Close_requested dialog) (ticks k dialog s1) in
  let s3 := dispatch Exec_returns (ticks j dialog s2) in
  (exists d, dialogs s2 !! dialog = Some d
             /\ user_canceled d = true /\ close_timer_active d = true)
  /\ performs (trace s3) = performs (trace s)
  /\ dict_get id (scheduled_events s3) = None.
Proof.
  intros Hreach E Harmed Hon Hk. apply reachable_Inv in Hreach as HI.
  assert (Hnd : NoDup (dict_keys (scheduled_events s))) by apply HI.
  cbn zeta. rewrite (timer_timeout_notify _ _ _ _ _ HI E Harmed Hon).
  set (secs := notifications_seconds_before (settings s)) in *.
  set (s1 := with_exec_stack _ _).
  assert (Htr1 : performs (trace s1) = performs (trace s)).
  { unfold s1. simpl. rewrite performs_app. simpl. apply app_nil_r. }
  rewrite (ticks_open k (dialogs s) (opened_dialog a secs));
    [| done | done | simpl; lia].
  destruct (on_timeout_iter k (opened_dialog a secs))
    as (_ & Hc & Hu & Hv & _); [simpl; lia|].
  set (dk := Nat.iter k on_timeout (opened_dialog a secs)) in *.
  rewrite (close_requested_open _ _ dk);
    [| simpl; by apply list_lookup_middle | done].
  simpl dialogs. rewrite alter_last. split.
  - exists (reject dk). split; [simpl; by apply list_lookup_middle|].
    split; [done|]. simpl. by rewrite Hc.
  - rewrite (ticks_general j (dialogs s) (reject dk)) by done.
    destruct (tick_dialog_iter j (reject dk)) as [Hu' Hv'].
    rewrite (exec_returns_closed _ id (length (dialogs s)) (exec_stack s)
               (Nat.iter j tick_dialog (reject dk)));
      [| done | simpl; by apply list_lookup_middle | by apply Hv'].
    rewrite Hu'. simpl user_canceled. set (s' := with_exec_stack _ _).
    assert (E' : dict_get id (scheduled_events s') = Some (timer, a, dt))
      by exact E.
    destruct (cancel_event_present _ true _ _ _ _ E')
      as (H1 & _ & _ & _ & _ & _ & _ & H8).
    split; [rewrite H8; by rewrite <- Htr1|].
    rewrite H1. by apply dict_get_del_eq.
Qed.

Lemma cancel_survives_late_ticks_witness :
  let s1 := dispatch (Timer_timeout 0%nat) one_restart_notify in
  let s2 := dispatch (Close_requested 0%nat) (ticks 2 0 s1) in
  let s3 := dispatch Exec_returns (ticks 7 0 s2) in
  (exists d, dialogs s2 !! 0%nat = Some d
             /\ user_canceled d = true /\ close_timer_active d = true)
  /\ performs (trace s3) = performs (trace one_restart_notify)
  /\ dict_get 1 (scheduled_events s3) = None.
Proof.
  apply (cancel_survives_late_ticks one_restart_notify 1 0%nat restart 2000
           2 7).
  - apply reachable_run, reachable_init.
  - reflexivity.
  - reflexivity.
  - reflexivity.
  - vm_compute. lia.
Defined.

(** ** No timer outlives its event *)

Section TimersOwned.
Implicit Types (events : dict ScheduledEvent) (ts : list QTimer)
  (stack : list (Z * nat)).

Lemma owned_stop events ts timer :
  timers_owned_core events ts ->
  timers_owned_core events (alter stopped timer ts).
Proof.
  intros Ho r t' Hr Hact.
  apply lookup_alter_stopped in Hr as (t & Ht & Hs & Hne & Heq).
  destruct (decide (r = timer)) as [Hrt|Hrt].
  - rewrite (Heq Hrt) in Hact. discriminate.
  - rewrite (Hne Hrt) in *. by apply Ho.
Qed.

Lemma owned_del_inactive events ts id :
  timers_owned_core events ts ->
  (forall r t, ts !! r = Some t -> tm_slot t = id -> tm_active t = false) ->
  timers_owned_core (dict_del id events) ts.
Proof.
  intros Ho Hoff r t Hr Hact.
  destruct (Ho r t Hr Hact) as (a & dt & Hg). exists a, dt.
  rewrite dict_get_del_ne; [done|]. intros Heq.
  rewrite (Hoff r t Hr) in Hact; [discriminate | done].
Qed.

Lemma owned_del_stop events last ts stack timer t :
  Inv_core events last ts stack -> timers_owned_core events ts ->
  ts !! timer = Some t ->
  timers_owned_core (dict_del (tm_slot t) events) (alter stopped timer ts).
Proof.
  intros HI Ho Ht. apply owned_del_inactive; [by apply owned_stop|].
  intros r t' Hr Hslot.
  apply lookup_alter_stopped in Hr as (t0 & Hr0 & Hs0 & _ & Heq).
  apply Heq.
  apply (timer_of_slot_unique ts r timer t0 t); [apply HI | done | done |].
  congruence.
Qed.

Lemma owned_schedule events last ts stack a dt interval :
  Inv_core events last ts stack -> timers_owned_core events ts ->
  timers_owned_core (dict_set (last + 1) (length ts, a, dt) events)
    (ts ++ [{| tm_interval := interval; tm_active := true;
               tm_slot := last + 1 |}]).
Proof.
  intros (_ & _ & Hb & _) Ho r t. rewrite lookup_snoc_Some.
  intros [[_ Hr] | [-> <-]] Hact.
  - destruct (Ho r t Hr Hact) as (a' & dt' & Hg). exists a', dt'.
    rewrite dict_get_set_ne; [done|]. apply Hb in Hr. lia.
  - exists a, dt. simpl. apply dict_get_set_eq.
Qed.

Lemma owned_burn events ts slot :
  timers_owned_core events ts ->
  timers_owned_core events
    (ts ++ [{| tm_interval := 0; tm_active := false; tm_slot := slot |}]).
Proof.
  intros Ho r t. rewrite lookup_snoc_Some.
  intros [[_ Hr] | [_ <-]] Hact; [by apply Ho | discriminate Hact].
Qed.
End TimersOwned.

Lemma owned_cancel_event id user_triggered s :
  Inv s -> timers_owned s ->
  timers_owned (exec (cancel_event id user_triggered) s).
Proof.
  intros HI Ho.
  destruct (dict_get id (scheduled_events s)) as [[[r a] dt]|] eqn:E.
  - destruct (cancel_event_present _ user_triggered _ _ _ _ E)
      as (H1 & _ & H3 & _).
    unfold timers_owned. rewrite H1, H3.
    destruct (proj1 (proj2 HI) _ _ _ _ E) as (_ & t & Ht & <- & _).
    by eapply owned_del_stop.
  - unfold exec. by rewrite cancel_event_absent.
Qed.

Lemma owned_cancel_all_loop items s :
  scheduled_events s = items -> Inv s -> timers_owned s ->
  timers_owned (exec (cancel_all_loop items) s).
Proof.
  revert s. induction items as [|[id [[timer a] dt]] rest IH];
    intros s Hs HI Ho; [done|].
  unfold exec. rewrite cancel_all_loop_cons. cbn zeta.
  set (s1 := with_scheduled_events _ _).
  assert (Hs1 : scheduled_events s1 = rest).
  { unfold s1. simpl. rewrite Hs. simpl. by rewrite Z.eqb_refl. }
  assert (E : dict_get id (scheduled_events s) = Some (timer, a, dt)).
  { rewrite Hs. simpl. by rewrite Z.eqb_refl. }
  destruct (proj1 (proj2 HI) _ _ _ _ E) as (_ & t & Ht & Hslot & _).
  assert (HI1 : Inv s1).
  { unfold Inv, s1. simpl. rewrite <- Hslot. by apply Inv_core_del_stop. }
  assert (Ho1 : timers_owned s1).
  { unfold timers_owned, s1. simpl. rewrite <- Hslot.
    by eapply owned_del_stop. }
  destruct (log_event_outcome (Fmt_canceled a dt false) s1)
    as [-> | [[lines ->] | ->]].
  - by apply IH.
  - by apply IH.
  - exact Ho1.
Qed.

Lemma owned_dispatch e s : Inv s -> timers_owned s -> timers_owned (dispatch e s).
Proof.
  intros HI Ho. unfold dispatch. destruct e; simpl.
  - destruct (schedule_action_cases scheduled_datetime current_time)
      as [H | [[H Hfit] | [H Hfit]]].
    + unfold exec. by rewrite schedule_action_past.
    + destruct (schedule_action_future action_type _ _ s H Hfit)
        as (interval & H1 & _ & H3 & _).
      unfold timers_owned. rewrite H1, H3. by eapply owned_schedule.
    + unfold exec. rewrite (schedule_action_overflow action_type _ _ s H Hfit).
      unfold timers_owned. simpl. by apply owned_burn.
  - unfold exec. rewrite cancel_all_unfold.
    destruct (scheduled_events s) as [|it items] eqn:E; [done|].
    pose proof (owned_cancel_all_loop (it :: items) s E HI Ho) as H.
    unfold exec in H.
    by destruct (cancel_all_loop (it :: items) s) as [[[]|e] s1].
  - unfold exec, bind at 1, gets at 1.
    destruct (timers s !! timer) as [t|] eqn:Ht; [|done].
    destruct (tm_active t); [|done].
    unfold bind at 1, timer_stop, modify.
    set (s1 := with_timers _ s).
    destruct (dict_get (tm_slot t) (scheduled_events s1))
      as [[[r a] dt]|] eqn:E.
    + destruct (notifications_enable (settings s1)) eqn:Hn.
      * rewrite (prepare_for_action_notify _ _ _ _ _ E Hn).
        unfold timers_owned. simpl. by apply owned_stop.
      * rewrite (prepare_for_action_direct _ _ _ E Hn).
        destruct (execute_action_present _ _ _ _ _ E) as (H1 & _ & H3 & _).
        unfold exec in *. unfold timers_owned. rewrite H1, H3. simpl.
        by eapply owned_del_stop.
    + rewrite prepare_for_action_absent by done.
      unfold timers_owned. simpl. by apply owned_stop.
  - unfold exec, bind at 1, gets at 1.
    destruct (dialogs s !! dialog) as [d|]; [|done].
    destruct (close_timer_active d); done.
  - unfold exec, bind at 1, gets at 1.
    destruct (dialogs s !! dialog) as [d|]; [|done].
    destruct (dlg_visible d); done.
  - unfold exec, bind at 1, gets at 1.
    destruct (dialogs s !! dialog) as [d|]; [|done].
    destruct (dlg_visible d); done.
  - unfold exec, bind at 1, gets at 1.
    destruct (exec_stack s) as [|[id dialog] rest] eqn:Hst; [done|].
    unfold bind at 1, gets at 1.
    destruct (dialogs s !! dialog) as [d|] eqn:Hd; [|done].
    destruct (dlg_visible d); [done|].
    unfold bind at 1, modify.
    unfold prepare_for_action_resume, bind at 1, gets at 1.
    change (dialogs (with_exec_stack rest s)) with (dialogs s). rewrite Hd.
    set (s0 := with_exec_stack rest s).
    destruct (user_canceled d).
    + destruct (dict_get id (scheduled_events s0)) as [[[r a] dt]|] eqn:E.
      * destruct (cancel_event_present _ true _ _ _ _ E)
          as (H1 & _ & H3 & _).
        unfold exec in *. unfold timers_owned. rewrite H1, H3. simpl.
        destruct (proj1 (proj2 HI) _ _ _ _ E) as (_ & t & Ht & <- & _).
        by eapply owned_del_stop.
      * by rewrite cancel_event_absent.
    + destruct (dict_get id (scheduled_events s0)) as [[[r a] dt]|] eqn:E.
      * destruct (execute_action_present _ _ _ _ _ E) as (H1 & _ & H3 & _).
        unfold exec in *. unfold timers_owned. rewrite H1, H3. simpl.
        apply owned_del_inactive; [done|].
        destruct HI as (_ & _ & _ & _ & Hf). rewrite Hst in Hf.
        apply (Hf id). simpl. apply elem_of_cons. by left.
      * by rewrite execute_action_absent.
  - destruct (check_inactivity_frame probe s) as [tr Htr].
    unfold exec. by rewrite Htr.
  - done.
  - done.
Qed.

Lemma reachable_owned s : reachable s -> timers_owned s.
Proof.
  induction 1 as [cfg log windows | s e Hs IH].
  - intros r t Hr. simpl in Hr. by rewrite lookup_nil in Hr.
  - apply owned_dispatch; [by apply reachable_Inv | done].
Qed.

(** X13. No timer of [schedule_action] outlives its event. In every
    reachable state such a timer that is still running belongs to a
    registered event: the id its callback was connected with is in the
    registry, with this timer, and the event is Armed. (The one-second
    timer of a pre-notification dialog is another object, and this says
    nothing about it.) *)
Theorem running_timers_are_registered s r t :
  reachable s ->
  timers s !! r = Some t -> tm_active t = true ->
  (exists a dt, dict_get (tm_slot t) (scheduled_events s) = Some (r, a, dt))
  /\ event_state s (tm_slot t) = Some Armed.
Proof.
  intros Hreach Hr Hact. apply reachable_Inv in Hreach as HI.
  destruct (reachable_owned s Hreach r t Hr Hact) as (a & dt & E).
  split; [by exists a, dt|].
  unfold event_state. rewrite E, Hr, Hact.
  rewrite bool_decide_eq_false_2; [done|]. intros Hin.
  destruct HI as (_ & _ & _ & _ & Hf). destruct (Hf _ Hin) as [_ Hoff].
  rewrite (Hoff r t Hr eq_refl) in Hact. discriminate.
Qed.

Lemma running_timers_are_registered_witness :
  (exists a dt,
     dict_get 2 (scheduled_events two_events) = Some (1%nat, a, dt))
  /\ event_state two_events 2 = Some Armed.
Proof.
  apply (running_timers_are_registered two_events 1%nat
           {| tm_interval := 5000; tm_active := true; tm_slot := 2 |}).
  - apply reachable_run, reachable_init.
  - reflexivity.
  - reflexivity.
Defined.

(** ** Events enter the registry by scheduling only *)

Lemma shrinks_refl s : shrinks s s.
Proof. split; [done|]. by exists []. Qed.

Lemma shrinks_trans s1 s2 s3 : shrinks s1 s2 -> shrinks s2 s3 -> shrinks s1 s3.
Proof.
  intros (Hl1 & ids1 & H1) (Hl2 & ids2 & H2). split; [congruence|].
  exists (ids1 ++ ids2). by rewrite fold_left_app, <- H1.
Qed.

Lemma shrinks_fields s s' :
  last_timer_id s' = last_timer_id s ->
  scheduled_events s' = scheduled_events s ->
  shrinks s s'.
Proof. intros Hl He. split; [done|]. by exists []. Qed.

Lemma shrinks_del s s' id :
  last_timer_id s' = last_timer_id s ->
  scheduled_events s' = dict_del id (scheduled_events s) ->
  shrinks s s'.
Proof. intros Hl He. split; [done|]. by exists [id]. Qed.

Lemma shrinks_execute_action id s : shrinks s (exec (execute_action id) s).
Proof.
  destruct (dict_get id (scheduled_events s)) as [[[r a] dt]|] eqn:E.
  - destruct (execute_action_present _ _ _ _ _ E) as (H1 & H2 & _).
    by apply (shrinks_del _ _ id).
  - unfold exec. rewrite execute_action_absent by done. apply shrinks_refl.
Qed.

Lemma shrinks_cancel_event id user_triggered s :
  shrinks s (exec (cancel_event id user_triggered) s).
Proof.
  destruct (dict_get id (scheduled_events s)) as [[[r a] dt]|] eqn:E.
  - destruct (cancel_event_present _ user_triggered _ _ _ _ E)
      as (H1 & H2 & _).
    by apply (shrinks_del _ _ id).
  - unfold exec. rewrite cancel_event_absent by done. apply shrinks_refl.
Qed.

Lemma shrinks_cancel_all_loop items s :
  shrinks s (exec (cancel_all_loop items) s).
Proof.
  revert s. induction items as [|[id [[timer a] dt]] rest IH]; intros s.
  - apply shrinks_refl.
  - unfold exec. rewrite cancel_all_loop_cons. cbn zeta.
    set (s1 := with_scheduled_events _ _).
    assert (H1 : shrinks s s1) by (by apply (shrinks_del _ _ id)).
    destruct (log_event_outcome (Fmt_canceled a dt false) s1)
      as [-> | [[lines ->] | ->]].
    + eapply shrinks_trans; [exact H1 | apply IH].
    + eapply shrinks_trans; [exact H1|].
      eapply shrinks_trans; [|apply IH]. by apply shrinks_fields.
    + exact H1.
Qed.

Lemma shrinks_dispatch e s :
  (forall a scheduled_datetime current_time,
     e <> Click_schedule a scheduled_datetime current_time) ->
  shrinks s (dispatch e s).
Proof.
  intros Hne. unfold dispatch. destruct e; simpl.
  - by destruct (Hne action_type scheduled_datetime current_time).
  - unfold exec. rewrite cancel_all_unfold.
    destruct (scheduled_events s) as [|it items] eqn:E;
      [by apply shrinks_fields|].
    pose proof (shrinks_cancel_all_loop (it :: items) s) as H.
    unfold exec in H.
    destruct (cancel_all_loop (it :: items) s) as [[[]|e] s1]; [|done].
    eapply shrinks_trans; [exact H|]. by apply shrinks_fields.
  - unfold exec, bind at 1, gets at 1.
    destruct (timers s !! timer) as [t|] eqn:Ht; [|apply shrinks_refl].
    destruct (tm_active t); [|apply shrinks_refl].
    unfold bind at 1, timer_stop, modify.
    set (s1 := with_timers _ s).
    eapply (shrinks_trans _ s1); [by apply shrinks_fields|].
    destruct (dict_get (tm_slot t) (scheduled_events s1))
      as [[[r a] dt]|] eqn:E.
    + destruct (notifications_enable (settings s1)) eqn:Hn.
      * rewrite (prepare_for_action_notify _ _ _ _ _ E Hn).
        by apply shrinks_fields.
      * rewrite (prepare_for_action_direct _ _ _ E Hn).
        apply shrinks_execute_action.
    + rewrite prepare_for_action_absent by done. apply shrinks_refl.
  - unfold exec, bind at 1, gets at 1.
    destruct (dialogs s !! dialog) as [d|]; [|apply shrinks_refl].
    destruct (close_timer_active d); by apply shrinks_fields.
  - unfold exec, bind at 1, gets at 1.
    destruct (dialogs s !! dialog) as [d|]; [|apply shrinks_refl].
    destruct (dlg_visible d); by apply shrinks_fields.
  - unfold exec, bind at 1, gets at 1.
    destruct (dialogs s !! dialog) as [d|]; [|apply shrinks_refl].
    destruct (dlg_visible d); by apply shrinks_fields.
  - unfold exec, bind at 1, gets at 1.
    destruct (exec_stack s) as [|[id dialog] rest] eqn:Hst; [apply shrinks_refl|].
    unfold bind at 1, gets at 1.
    destruct (dialogs s !! dialog) as [d|] eqn:Hd; [|apply shrinks_refl].
    destruct (dlg_visible d); [apply shrinks_refl|].
    unfold bind at 1, modify.
    unfold prepare_for_action_resume, bind at 1, gets at 1.
    change (dialogs (with_exec_stack rest s)) with (dialogs s). rewrite Hd.
    eapply (shrinks_trans _ (with_exec_stack rest s));
      [by apply shrinks_fields|].
    destruct (user_canceled d);
      [apply shrinks_cancel_event | apply shrinks_execute_action].
  - destruct (check_inactivity_frame probe s) as [tr Htr].
    unfold exec. rewrite Htr. by apply shrinks_fields.
  - by apply shrinks_fields.
  - by apply shrinks_fields.
Qed.

Lemma dict_get_del_Some {V} k k' (v : V) d :
  NoDup (dict_keys d) -> dict_get k' (dict_del k d) = Some v ->
  dict_get k' d = Some v.
Proof.
  intros Hnd Hg. destruct (decide (k = k')) as [->|Hne].
  - by rewrite dict_get_del_eq in Hg.
  - by rewrite dict_get_del_ne in Hg.
Qed.

Lemma dict_get_dels_Some {V} ids k (v : V) d :
  NoDup (dict_keys d) ->
  dict_get k (fold_left (fun d id => dict_del id d) ids d) = Some v ->
  dict_get k d = Some v.
Proof.
  revert d. induction ids as [|id ids IH]; intros d Hnd Hg; [done|].
  simpl in Hg. apply IH in Hg; [|by apply dict_del_NoDup].
  by apply (dict_get_del_Some id).
Qed.

Lemma entry_kept_by_dispatch e s id ev :
  Inv s -> id <= last_timer_id s ->
  dict_get id (scheduled_events (dispatch e s)) = Some ev ->
  dict_get id (scheduled_events s) = Some ev.
Proof.
  intros HI Hid Hg.
  assert (Hnd : NoDup (dict_keys (scheduled_events s))) by apply HI.
  destruct e as [a dt now| | | | | | | | |].
  2-10: match type of Hg with
       | context [dispatch ?e ?s0] =>
           destruct (shrinks_dispatch e s0) as (_ & ids & Hids);
           [intros; discriminate|]
       end; rewrite Hids in Hg; by apply (dict_get_dels_Some ids).
  unfold dispatch in Hg. simpl in Hg.
  destruct (schedule_action_cases dt now) as [H | [[H Hfit] | [H Hfit]]].
  - unfold exec in Hg. by rewrite schedule_action_past in Hg.
  - destruct (schedule_action_future a _ _ s H Hfit) as (interval & H1 & _).
    rewrite H1, dict_get_set_ne in Hg; [done | lia].
  - unfold exec in Hg.
    by rewrite (schedule_action_overflow a _ _ s H Hfit) in Hg.
Qed.

(** X14. Events enter the registry by scheduling only, and an entry never
    changes. Start from any reachable state and let any events follow: an
    id that had been assigned by then and is registered afterwards was
    registered at the start, with the same timer, action type and time. So
    no handler re-registers an executed or canceled event, and none alters
    what an event will do or when. *)
Theorem entries_never_change s es id ev :
  reachable s -> id <= last_timer_id s ->
  dict_get id (scheduled_events (run es s)) = Some ev ->
  dict_get id (scheduled_events s) = Some ev.
Proof.
  revert s. induction es as [|e es IH]; intros s Hreach Hid Hg; [done|].
  simpl in Hg. apply (entry_kept_by_dispatch e); [by apply reachable_Inv | done|].
  apply IH; [by constructor | | done].
  destruct (evolves_dispatch e s) as [Hmono _]. lia.
Qed.

Lemma entries_never_change_witness :
  dict_get 2 (scheduled_events two_events) = Some (1%nat, shutdown, 5000).
Proof.
  apply (entries_never_change two_events
           [Timer_timeout 0%nat; Click_schedule sleep 9000 100] 2
           (1%nat, shutdown, 5000)).
  - apply reachable_run, reachable_init.
  - vm_compute. by intros.
  - reflexivity.
Defined.

Lemma ascending_del last (d : dict ScheduledEvent) k :
  ascending_upto last (dict_keys d) ->
  ascending_upto last (dict_keys (dict_del k d)).
Proof.
  induction d as [|[k1 v1] d IH]; [done|]. simpl.
  intros (Hle & Hlt & Hrest). destruct (Z.eqb k k1); [done|]. simpl.
  split; [done|]. split; [|by apply IH].
  intros k' Hk'. apply Hlt. by apply (dict_keys_del_subseteq k d).
Qed.

Lemma ascending_snoc last keys :
  ascending_upto last keys -> ascending_upto (last + 1) (keys ++ [last + 1]).
Proof.
  induction keys as [|k keys IH]; simpl.
  - intros _. split; [lia|]. split; [|done].
    intros k' Hk'. by apply elem_of_nil in Hk'.
  - intros (Hle & Hlt & Hrest). split; [lia|]. split; [|by apply IH].
    intros k' Hk'. apply elem_of_app in Hk' as [Hk'|Hk']; [by apply Hlt|].
    apply list_elem_of_singleton in Hk'. lia.
Qed.

Lemma ascending_mono last last' keys :
  last <= last' -> ascending_upto last keys -> ascending_upto last' keys.
Proof.
  intros Hle. induction keys as [|k keys IH]; [done|]. simpl.
  intros (Hk & Hlt & Hrest). split; [lia|]. split; [done | by apply IH].
Qed.

Lemma ascending_dispatch e s :
  Inv s ->
  ascending_upto (last_timer_id s) (dict_keys (scheduled_events s)) ->
  ascending_upto (last_timer_id (dispatch e s))
    (dict_keys (scheduled_events (dispatch e s))).
Proof.
  intros HI Hasc.
  destruct e as [a dt now| | | | | | | | |].
  2-10: match goal with
       | |- context [dispatch ?e ?s0] =>
           destruct (shrinks_dispatch e s0) as (Hl & ids & Hids);
           [intros; discriminate|]
       end; rewrite Hl, Hids; clear HI Hl Hids;
    revert Hasc; generalize (scheduled_events s); induction ids as [|id ids IH];
    intros d Hd; [done | simpl; by apply IH, ascending_del].
  unfold dispatch. simpl.
  destruct (schedule_action_cases dt now) as [H | [[H Hfit] | [H Hfit]]].
  - unfold exec. by rewrite schedule_action_past.
  - destruct (schedule_action_future a _ _ s H Hfit)
      as (interval & H1 & H2 & _).
    rewrite H1, H2, (dict_set_fresh _ _ _ (Inv_fresh_id s HI)).
    unfold dict_keys. rewrite fmap_app. by apply ascending_snoc.
  - unfold exec. rewrite (schedule_action_overflow a _ _ s H Hfit). simpl.
    apply (ascending_mono (last_timer_id s)); [lia | done].
Qed.

(** X15. In every reachable state the registry holds its events in
    ascending order of id, which is the order in which they were scheduled,
    and no id exceeds the counter. This is the order in which cancel-all
    goes through them. *)
Theorem registry_in_scheduling_order s :
  reachable s ->
  ascending_upto (last_timer_id s) (dict_keys (scheduled_events s)).
Proof.
  induction 1 as [cfg log windows | s e Hs IH]; [done|].
  apply ascending_dispatch; [by apply reachable_Inv | done].
Qed.

Lemma registry_in_scheduling_order_witness :
  ascending_upto (last_timer_id two_events)
    (dict_keys (scheduled_events two_events)).
Proof.
  apply (registry_in_scheduling_order two_events).
  apply reachable_run, reachable_init.
Defined.

(** ** The log is append-only *)

Lemma log_continues_refl s : log_continues s s.
Proof. intros lines Hl. exists []. by rewrite app_nil_r. Qed.

Lemma log_continues_trans s1 s2 s3 :
  log_continues s1 s2 -> log_continues s2 s3 -> log_continues s1 s3.
Proof.
  intros H12 H23 lines Hl. destruct (H12 lines Hl) as [m1 H1].
  destruct (H23 _ H1) as [m2 H2]. exists (m1 ++ m2). by rewrite app_assoc.
Qed.

Lemma log_continues_fields s s' :
  log_file s' = log_file s -> log_continues s s'.
Proof. intros H lines Hl. exists []. by rewrite app_nil_r, H. Qed.

Lemma log_continues_log_event message s :
  log_continues s (exec (log_event message) s).
Proof.
  unfold exec. py_unfold. cbn.
  destruct (logging_enable (settings s)); cbn; [|apply log_continues_refl].
  destruct (log_file s) as [l|] eqn:Hf; cbn; [|apply log_continues_refl].
  intros lines Hl. rewrite Hf in Hl. injection Hl as <-. simpl.
  by exists [message].
Qed.

Ltac log_cont :=
  intros lines Hl; simpl in *;
  first [ exists []; rewrite app_nil_r; exact Hl
        | match goal with
          | Hf : log_file _ = Some _ |- _ =>
              rewrite Hf in Hl; injection Hl as <-; by eexists
          end ].

Lemma log_continues_execute_action id s :
  log_continues s (exec (execute_action id) s).
Proof.
  destruct (dict_get id (scheduled_events s)) as [[[r a] dt]|] eqn:E.
  - unfold exec. py_unfold. rewrite E. cbn.
    destruct (logging_enable (settings s)); cbn;
      [destruct (log_file s) as [l|] eqn:Hf; cbn|]; log_cont.
  - unfold exec. rewrite execute_action_absent by done.
    apply log_continues_refl.
Qed.

Lemma log_continues_cancel_event id user_triggered s :
  log_continues s (exec (cancel_event id user_triggered) s).
Proof.
  destruct (dict_get id (scheduled_events s)) as [[[r a] dt]|] eqn:E.
  - unfold exec. py_unfold. rewrite E. cbn.
    destruct (match timers s !! r with
              | Some t => tm_active t | None => false end); cbn;
      (destruct (logging_enable (settings s)); cbn;
       [destruct (log_file s) as [l|] eqn:Hf; cbn|]); log_cont.
  - unfold exec. rewrite cancel_event_absent by done.
    apply log_continues_refl.
Qed.

Lemma log_continues_schedule_action a scheduled_datetime current_time s :
  log_continues s (exec (schedule_action a scheduled_datetime current_time) s).
Proof.
  unfold exec, schedule_action.
  destruct (Qle_bool _ _); [by apply log_continues_fields|].
  py_unfold. cbn.
  destruct (c_int (interval_msec scheduled_datetime current_time)); cbn;
    [|by apply log_continues_fields].
  destruct (logging_enable (settings s)); cbn;
    [destruct (log_file s) as [l|] eqn:Hf; cbn|]; log_cont.
Qed.

Lemma log_continues_cancel_all_loop items s :
  log_continues s (exec (cancel_all_loop items) s).
Proof.
  revert s. induction items as [|[id [[timer a] dt]] rest IH]; intros s.
  - apply log_continues_refl.
  - unfold exec. rewrite cancel_all_loop_cons. cbn zeta.
    set (s1 := with_scheduled_events _ _).
    pose proof (log_continues_log_event (Fmt_canceled a dt false) s1) as H1.
    assert (H0 : log_continues s s1) by (by apply log_continues_fields).
    unfold exec in H1.
    destruct (log_event (Fmt_canceled a dt false) s1) as [[[]|e] s2]; simpl in *.
    + eapply log_continues_trans; [exact H0|].
      eapply log_continues_trans; [exact H1 | apply IH].
    + eapply log_continues_trans; [exact H0 | exact H1].
Qed.

Lemma log_continues_dispatch e s :
  (forall f, e <> Log_file_status f) -> log_continues s (dispatch e s).
Proof.
  intros Hne. unfold dispatch. destruct e; simpl.
  - apply log_continues_schedule_action.
  - unfold exec. rewrite cancel_all_unfold.
    destruct (scheduled_events s) as [|it items] eqn:E;
      [by apply log_continues_fields|].
    pose proof (log_continues_cancel_all_loop (it :: items) s) as H.
    unfold exec in H.
    destruct (cancel_all_loop (it :: items) s) as [[[]|e] s1]; [|done].
    eapply log_continues_trans; [exact H|]. by apply log_continues_fields.
  - unfold exec, bind at 1, gets at 1.
    destruct (timers s !! timer) as [t|] eqn:Ht; [|apply log_continues_refl].
    destruct (tm_active t); [|apply log_continues_refl].
    unfold bind at 1, timer_stop, modify.
    set (s1 := with_timers _ s).
    eapply (log_continues_trans _ s1); [by apply log_continues_fields|].
    destruct (dict_get (tm_slot t) (scheduled_events s1))
      as [[[r a] dt]|] eqn:E.
    + destruct (notifications_enable (settings s1)) eqn:Hn.
      * rewrite (prepare_for_action_notify _ _ _ _ _ E Hn).
        by apply log_continues_fields.
      * rewrite (prepare_for_action_direct _ _ _ E Hn).
        apply log_continues_execute_action.
    + rewrite prepare_for_action_absent by done. apply log_continues_refl.
  - unfold exec, bind at 1, gets at 1.
    destruct (dialogs s !! dialog) as [d|]; [|apply log_continues_refl].
    destruct (close_timer_active d); by apply log_continues_fields.
  - unfold exec, bind at 1, gets at 1.
    destruct (dialogs s !! dialog) as [d|]; [|apply log_continues_refl].
    destruct (dlg_visible d); by apply log_continues_fields.
  - unfold exec, bind at 1, gets at 1.
    destruct (dialogs s !! dialog) as [d|]; [|apply log_continues_refl].
    destruct (dlg_visible d); by apply log_continues_fields.
  - unfold exec, bind at 1, gets at 1.
    destruct (exec_stack s) as [|[id dialog] rest] eqn:Hst;
      [apply log_continues_refl|].
    unfold bind at 1, gets at 1.
    destruct (dialogs s !! dialog) as [d|] eqn:Hd; [|apply log_continues_refl].
    destruct (dlg_visible d); [apply log_continues_refl|].
    unfold bind at 1, modify.
    unfold prepare_for_action_resume, bind at 1, gets at 1.
    change (dialogs (with_exec_stack rest s)) with (dialogs s). rewrite Hd.
    eapply (log_continues_trans _ (with_exec_stack rest s));
      [by apply log_continues_fields|].
    destruct (user_canceled d);
      [apply log_continues_cancel_event | apply log_continues_execute_action].
  - destruct (check_inactivity_frame probe s) as [tr Htr].
    unfold exec. rewrite Htr. by apply log_continues_fields.
  - by apply log_continues_fields.
  - by destruct (Hne f).
Qed.

(** X16. The application only ever appends to its log. Through any events
    in which the log file itself is not replaced from outside, every line
    the log held at the start is still there, in place, followed by what
    was written since: no handler truncates, reorders or rewrites it. *)
Theorem log_is_append_only es s :
  Forall (fun e => forall f, e <> Log_file_status f) es ->
  log_continues s (run es s).
Proof.
  revert s. induction es as [|e es IH]; intros s Hes.
  - apply log_continues_refl.
  - apply Forall_cons in Hes as [He Hes]. simpl.
    eapply log_continues_trans; [by apply log_continues_dispatch | by apply IH].
Qed.

Lemma log_is_append_only_witness :
  log_continues (init cfg_logging (Some []) false)
    (run [Click_schedule restart 2000 0; Click_cancel_all]
       (init cfg_logging (Some []) false)).
Proof.
  apply (log_is_append_only [Click_schedule restart 2000 0; Click_cancel_all]
           (init cfg_logging (Some []) false)).
  repeat constructor; intros f; discriminate.
Defined.

(** ** Announcements and commands *)

(** X18. After a schedule request for a future time whose delay
    [timer.start] accepts and whose log write does not fail, the label and
    the tray message announce the event with the number of events now
    registered, which is one more than before; the log, if enabled, gains
    the "Scheduled" line. *)
Theorem schedule_announces_count s a scheduled_datetime current_time :
  reachable s ->
  current_time < scheduled_datetime ->
  c_int (interval_msec scheduled_datetime current_time) = true ->
  logging_enable (settings s) = false \/ log_file s <> None ->
  let s' := exec (schedule_action a scheduled_datetime current_time) s in
  let count := S (length (scheduled_events s)) in
  result_of (schedule_action a scheduled_datetime current_time) s = Return tt
  /\ length (scheduled_events s') = count
  /\ info_label s' = Fmt_scheduled a scheduled_datetime count
  /\ trace s' =
     trace s ++ [ShowMessage (Lit "Action Scheduled")
                   (Fmt_scheduled a scheduled_datetime count)
                   Information 3000]
  /\ log_file s' =
     if logging_enable (settings s)
     then (fun lines => lines ++ [Fmt_scheduled_log a scheduled_datetime])
          <$> log_file s
     else log_file s.
Proof.
  intros Hreach Hfut Hfit Hlog. apply reachable_Inv in Hreach as HI.
  pose proof (Inv_fresh_id s HI) as Hfresh.
  cbn zeta. unfold exec, result_of, schedule_action.
  rewrite delay_not_positive. apply Z.leb_gt in Hfut. rewrite Hfut.
  py_unfold. cbn. rewrite Hfit. cbn. rewrite (dict_set_fresh _ _ _ Hfresh).
  destruct (logging_enable (settings s)) eqn:Hen; cbn.
  - destruct Hlog as [|Hlog]; [done|].
    destruct (log_file s) as [lines|]; [|done]. cbn.
    rewrite length_app. simpl. rewrite Nat.add_1_r. done.
  - rewrite length_app. simpl. rewrite Nat.add_1_r. done.
Qed.

Lemma schedule_announces_count_witness :
  let s' := exec (schedule_action sleep 9000 100) two_events in
  result_of (schedule_action sleep 9000 100) two_events = Return tt
  /\ length (scheduled_events s') = 3%nat
  /\ info_label s' = Fmt_scheduled sleep 9000 3
  /\ trace s' =
     trace two_events ++ [ShowMessage (Lit "Action Scheduled")
                            (Fmt_scheduled sleep 9000 3) Information 3000]
  /\ log_file s' = log_file two_events.
Proof.
  apply (schedule_announces_count two_events sleep 9000 100).
  - apply reachable_run, reachable_init.
  - lia.
  - reflexivity.
  - by left.
Defined.

(** X21. A schedule request for a future time whose delay in milliseconds,
    as the code computes it, does not fit a C [int] (from about 24.8 days
    on) fails inside [timer.start] with [OverflowError], after the id
    counter has moved. Nothing is registered, label, log and tray are as
    they were and nothing is executed; the id is given up, and the timer
    object that is left was never started and does not fire. *)
Theorem schedule_far_future_overflows s a scheduled_datetime current_time :
  current_time < scheduled_datetime ->
  c_int (interval_msec scheduled_datetime current_time) = false ->
  let s' := exec (schedule_action a scheduled_datetime current_time) s in
  result_of (schedule_action a scheduled_datetime current_time) s
    = Raise OverflowError
  /\ last_timer_id s' = last_timer_id s + 1
  /\ scheduled_events s' = scheduled_events s
  /\ info_label s' = info_label s
  /\ log_file s' = log_file s
  /\ trace s' = trace s
  /\ timers s' = timers s ++ [{| tm_interval := 0; tm_active := false;
                                 tm_slot := last_timer_id s + 1 |}]
  /\ dispatch (Timer_timeout (length (timers s))) s' = s'.
Proof.
  intros Hfut Hfit. cbn zeta. unfold exec, result_of.
  rewrite (schedule_action_overflow a _ _ s Hfut Hfit). simpl.
  repeat split.
  apply (timer_timeout_inactive _
           {| tm_interval := 0; tm_active := false;
              tm_slot := last_timer_id s + 1 |}); [|done].
  simpl. by apply list_lookup_middle.
Qed.

Lemma schedule_far_future_overflows_witness :
  let s' := exec (schedule_action shutdown 3000000000 0) two_events in
  result_of (schedule_action shutdown 3000000000 0) two_events
    = Raise OverflowError
  /\ last_timer_id s' = last_timer_id two_events + 1
  /\ scheduled_events s' = scheduled_events two_events
  /\ info_label s' = info_label two_events
  /\ log_file s' = log_file two_events
  /\ trace s' = trace two_events
  /\ timers s' = timers two_events
                 ++ [{| tm_interval := 0; tm_active := false;
                        tm_slot := last_timer_id two_events + 1 |}]
  /\ dispatch (Timer_timeout (length (timers two_events))) s' = s'.
Proof.
  apply (schedule_far_future_overflows two_events shutdown 3000000000 0).
  - lia.
  - reflexivity.
Defined.

(** X19. The command handed to [os.system] tells both the platform branch
    and the action: no two of the six commands coincide, so in particular
    a shutdown, a restart and a sleep are never confused. *)
Theorem system_command_injective w1 a1 w2 a2 :
  system_command w1 a1 = system_command w2 a2 -> w1 = w2 /\ a1 = a2.
Proof.
  destruct w1, a1, w2, a2; simpl; intros H; try done; discriminate H.
Qed.

Lemma system_command_injective_witness :
  true = true /\ sleep = sleep.
Proof.
  apply (system_command_injective true sleep true sleep). reflexivity.
Defined.

(** ** The settings dialog *)

Lemma spin_setValue_range lo hi v :
  lo <= hi -> lo <= spin_setValue lo hi v <= hi.
Proof. unfold spin_setValue. lia. Qed.

Lemma spin_setValue_id lo hi v : lo <= v <= hi -> spin_setValue lo hi v = v.
Proof. unfold spin_setValue. lia. Qed.

(** X17. Opening the settings dialog and pressing OK without touching
    anything writes every checkbox setting back as it was, except that on
    Windows the startup flag becomes what the registry says, for which
    [set_app_in_startup] is called with that value; the lead time is
    brought into [5, 3600] and the inactivity timeout into [1, 480]. Doing
    it once more changes nothing further. *)
Theorem settings_dialog_normalises win is_in_registry cfg :
  exists cfg',
    open_and_accept win is_in_registry cfg = Some cfg'
    /\ in_ranges cfg'
    /\ notifications_seconds_before cfg'
       = Z.max 5 (Z.min 3600 (notifications_seconds_before cfg))
    /\ auto_sleep_timeout_minutes cfg'
       = Z.max 1 (Z.min 480 (auto_sleep_timeout_minutes cfg))
    /\ notifications_enable cfg' = notifications_enable cfg
    /\ logging_enable cfg' = logging_enable cfg
    /\ ui_minimize_to_tray cfg' = ui_minimize_to_tray cfg
    /\ auto_sleep_enable cfg' = auto_sleep_enable cfg
    /\ startup_enable cfg'
       = (if win then is_in_registry else startup_enable cfg)
    /\ (on_ok_clicked win (Some cfg)
          (load_settings_from_ini win is_in_registry (Some cfg)
             new_SettingsDialog)).1.2
       = (if win then Some is_in_registry else None)
    /\ open_and_accept win is_in_registry cfg' = Some cfg'.
Proof.
  exists {| notifications_enable := notifications_enable cfg;
            notifications_seconds_before :=
              spin_setValue 5 3600 (notifications_seconds_before cfg);
            logging_enable := logging_enable cfg;
            startup_enable :=
              if win then is_in_registry else startup_enable cfg;
            ui_minimize_to_tray := ui_minimize_to_tray cfg;
            auto_sleep_enable := auto_sleep_enable cfg;
            auto_sleep_timeout_minutes :=
              spin_setValue 1 480 (auto_sleep_timeout_minutes cfg) |}.
  split; [by destruct win|]. unfold in_ranges. simpl.
  split; [unfold spin_setValue; lia|].
  split; [done|]. split; [done|]. split; [done|]. split; [done|].
  split; [done|]. split; [done|]. split; [done|].
  split; [by destruct win|].
  unfold open_and_accept. simpl.
  rewrite (spin_setValue_id 5 3600) by (unfold spin_setValue; lia).
  rewrite (spin_setValue_id 1 480) by (unfold spin_setValue; lia).
  by destruct win.
Qed.

(** X20. A configuration whose lead time and timeout are inside the ranges
    of the spin boxes passes through the settings dialog unchanged when
    nothing is edited, provided that on Windows its startup flag agrees
    with the registry. *)
Theorem settings_dialog_round_trip win is_in_registry cfg :
  in_ranges cfg ->
  (win = true -> is_in_registry = startup_enable cfg) ->
  open_and_accept win is_in_registry cfg = Some cfg.
Proof.
  intros [Hlead Hmin] Hreg. unfold open_and_accept. simpl.
  rewrite !spin_setValue_id by done.
  destruct cfg as [ne ns le se mt ae am]. simpl in *. f_equal. f_equal.
  destruct win; [by apply Hreg | done].
Qed.

Lemma settings_dialog_round_trip_witness :
  open_and_accept false true default_settings = Some default_settings.
Proof.
  apply (settings_dialog_round_trip false true default_settings).
  - unfold in_ranges. simpl. lia.
  - discriminate.
Defined.
